(** * Wing Chun Revolution API: validation layer and progress upsert

    A shallow embedding of [src/schemas.py] and [src/main.py].

    - JSON-like Python values and documents (dicts keyed by strings);
    - the pydantic schemas of [schemas.py] and the request models of
      [main.py], as field tables read by one model of pydantic's
      lax-mode validation;
    - the document store reached through [db] (collections of documents
      in insertion order, [find_one], [update_one], [insert_one]);
    - the handlers [serialize_doc], [upsert_progress], [create_video],
      [list_videos], [get_user_progress], [list_posts] in a state and
      exception monad over the store handle and the wall clock. *)

From Stdlib Require Import ZArith QArith Qround Ascii String.
From stdpp Require Import base option list strings gmap fin_maps.

Local Open Scope string_scope.
Local Open Scope list_scope.
Local Open Scope Z_scope.
Set Warnings "-register-all".

(** ** Python values *)

(** A Python [float].  A finite double is a rational number, and the
    order comparisons of IEEE 754 on finite doubles are the comparisons
    of those rationals, so a finite float is kept as its value in [Q].
    The two infinities and NaN, which [json.loads] admits, are kept
    apart. *)
Inductive pyfloat : Type :=
  | FFin (q : Q)
  | FInf (negative : bool)
  | FNaN.

(** The values a request body or a stored document is made of. *)
Inductive value : Type :=
  | VNone
  | VBool (b : bool)
  | VInt (z : Z)
  | VFloat (f : pyfloat)
  | VStr (s : string)
  | VList (l : list value)
  | VDict (kvs : list (string * value))
  | VDatetime (micros : Z)
  | VObjectId (oid : N).

(** A [dict] with string keys: a request body, a dumped model, a stored
    document. *)
Abbreviation dict := (gmap string value).

(** [x <= y] and [x >= y] on floats, false whenever NaN is involved. *)
Definition float_le (x y : pyfloat) : bool :=
  match x, y with
  | FNaN, _ | _, FNaN => false
  | FInf true, _ => true
  | _, FInf false => true
  | FInf false, _ => false
  | _, FInf true => false
  | FFin a, FFin b => Qle_bool a b
  end.

Definition float_ge (x y : pyfloat) : bool := float_le y x.

Definition float_of_int (z : Z) : pyfloat := FFin (inject_Z z).

(** A float with no fractional part, as the integer it denotes. *)
Definition float_as_int (f : pyfloat) : option Z :=
  match f with
  | FFin q =>
      if Qeq_bool q (inject_Z (Qfloor q)) then Some (Qfloor q) else None
  | _ => None
  end.

(** Equality of values as the store compares them: structural, numbers
    by numeric value. *)
Definition float_eqb (x y : pyfloat) : bool :=
  match x, y with
  | FFin a, FFin b => Qeq_bool a b
  | FInf a, FInf b => Bool.eqb a b
  | _, _ => false
  end.

Fixpoint value_eqb (a b : value) {struct a} : bool :=
  match a, b with
  | VNone, VNone => true
  | VBool x, VBool y => Bool.eqb x y
  | VInt x, VInt y => Z.eqb x y
  | VInt x, VFloat y => float_eqb (float_of_int x) y
  | VFloat x, VInt y => float_eqb x (float_of_int y)
  | VFloat x, VFloat y => float_eqb x y
  | VStr x, VStr y => String.eqb x y
  | VList xs, VList ys =>
      (fix go (xs ys : list value) {struct xs} : bool :=
         match xs, ys with
         | [], [] => true
         | x :: xs', y :: ys' => value_eqb x y && go xs' ys'
         | _, _ => false
         end) xs ys
  | VDict xs, VDict ys =>
      (fix go (xs ys : list (string * value)) {struct xs} : bool :=
         match xs, ys with
         | [], [] => true
         | (k, x) :: xs', (k', y) :: ys' =>
             String.eqb k k' && value_eqb x y && go xs' ys'
         | _, _ => false
         end) xs ys
  | VDatetime x, VDatetime y => Z.eqb x y
  | VObjectId x, VObjectId y => N.eqb x y
  | _, _ => false
  end.

(** ** [str()] *)

Definition hex_digit (n : N) : ascii :=
  match n with
  | 0%N => "0" | 1%N => "1" | 2%N => "2" | 3%N => "3"
  | 4%N => "4" | 5%N => "5" | 6%N => "6" | 7%N => "7"
  | 8%N => "8" | 9%N => "9" | 10%N => "a" | 11%N => "b"
  | 12%N => "c" | 13%N => "d" | 14%N => "e" | _ => "f"
  end%char.

Fixpoint hex_fixed (digits : nat) (n : N) (acc : string) : string :=
  match digits with
  | O => acc
  | S k => hex_fixed k (n / 16)%N (String (hex_digit (n mod 16)%N) acc)
  end.

(** [str(ObjectId)]: the twelve bytes as 24 lowercase hex digits. *)
Definition str_of_oid (oid : N) : string := hex_fixed 24 oid EmptyString.

(** ** What is taken from the libraries

    The parsers of pydantic's lax mode (numbers written as strings, the
    e-mail syntax check behind [EmailStr], date parsing) and the text
    Python prints for a value other than a string or an [ObjectId] are
    the libraries' own; the program is modelled over any choice of
    them. *)
Class PyLib : Type := {
  str_as_int : string -> option Z;
  str_as_float : string -> option pyfloat;
  str_as_bool : string -> option bool;
  validate_email : string -> option string;
  validate_datetime : value -> option Z;
  repr_value : value -> string;
}.

(** ** Validation errors and exceptions *)

(** One step of an error location: a field name, or an index in a list. *)
Inductive loc_item : Type :=
  | LocField (name : string)
  | LocIndex (i : nat).

(** The error types of pydantic that the declared schemas can raise. *)
Inductive error_type : Type :=
  | missing
  | string_type
  | int_type
  | int_parsing
  | int_from_float
  | finite_number
  | float_type
  | float_parsing
  | bool_type
  | bool_parsing
  | list_type
  | literal_error (expected : list string)
  | greater_than_equal (bound : Q)
  | less_than_equal (bound : Q)
  | value_error
  | datetime_type.

(** One entry of [ValidationError.errors()]. *)
Record line_error : Type := LineError {
  err_loc : list loc_item;
  err_type : error_type;
  err_input : value;
}.

(** The exceptions the handlers raise. *)
Inductive exn : Type :=
  | HTTPException (status_code : Z) (detail : string)
  | ValidationError (title : string) (errors : list line_error)
  | KeyError (key : string).

(** What a call comes back with: a value, or an exception. *)
Inductive result (A : Type) : Type :=
  | Ok (a : A)
  | Raise (e : exn).
Arguments Ok {A} a.
Arguments Raise {A} e.

(** ** Schemas as field tables *)

(** The annotations used in [schemas.py] and [main.py]. *)
Inductive ftype : Type :=
  | TStr
  | TInt
  | TFloat
  | TBool
  | TEmailStr
  | TDatetime
  | TLiteral (choices : list string)
  | TList (item : ftype)
  | TOptional (inner : ftype).

(** A declared field: [name: type = Field(default, ge=.., le=..)].
    [f_default = None] is a required field ([Field(...)] with the
    ellipsis, or no default at all). *)
Record field : Type := MkField {
  f_name : string;
  f_type : ftype;
  f_default : option value;
  f_ge : option Q;
  f_le : option Q;
}.

(** A [BaseModel] subclass: its name and its fields in declaration
    order. *)
Record model : Type := MkModel {
  m_name : string;
  m_fields : list field;
}.

(** [name: type] or [name: type = Field(...)] *)
Definition required (name : string) (t : ftype) : field :=
  MkField name t None None None.

(** [name: type = default] or [name: type = Field(default)] *)
Definition defaulted (name : string) (t : ftype) (d : value) : field :=
  MkField name t (Some d) None None.

(** *** [schemas.py] *)

Definition plan_tiers : list string := ["BASIC"; "PREMIUM"; "VIP"].

Definition User : model :=
  MkModel "User"
    [ required "name" TStr;
      required "email" TEmailStr;
      defaulted "avatar_url" (TOptional TStr) VNone;
      defaulted "plan" (TLiteral plan_tiers) (VStr "BASIC");
      defaulted "country" (TOptional TStr) VNone;
      defaulted "is_active" TBool (VBool true) ].

Definition Subscription : model :=
  MkModel "Subscription"
    [ required "user_id" TStr;
      required "plan" (TLiteral plan_tiers);
      defaulted "started_at" (TOptional TDatetime) VNone;
      defaulted "expires_at" (TOptional TDatetime) VNone;
      defaulted "status"
        (TLiteral ["active"; "canceled"; "expired"; "pending"])
        (VStr "pending") ].

Definition Video : model :=
  MkModel "Video"
    [ required "title" TStr;
      defaulted "description" (TOptional TStr) VNone;
      required "url" TStr;
      MkField "duration_sec" (TOptional TInt) (Some VNone) (Some 0%Q) None;
      defaulted "level"
        (TLiteral ["beginner"; "intermediate"; "advanced"])
        (VStr "beginner");
      defaulted "topics" (TList TStr) (VList []);
      defaulted "requires_plan" (TLiteral plan_tiers) (VStr "BASIC") ].

Definition Progress : model :=
  MkModel "Progress"
    [ required "user_id" TStr;
      required "video_id" TStr;
      MkField "percent" TFloat (Some (VInt 0)) (Some 0%Q) (Some 100%Q);
      MkField "last_position_sec" (TOptional TInt) (Some (VInt 0))
        (Some 0%Q) None ].

Definition ForumPost : model :=
  MkModel "ForumPost"
    [ required "user_id" TStr;
      required "title" TStr;
      required "content" TStr;
      defaulted "topics" (TList TStr) (VList []) ].

Definition Comment : model :=
  MkModel "Comment"
    [ required "user_id" TStr;
      required "post_id" TStr;
      required "content" TStr ].

Definition LiveClass : model :=
  MkModel "LiveClass"
    [ required "title" TStr;
      required "instructor" TStr;
      required "starts_at" TDatetime;
      defaulted "ends_at" (TOptional TDatetime) VNone;
      defaulted "access_plan" (TLiteral plan_tiers) (VStr "BASIC");
      defaulted "meeting_url" (TOptional TStr) VNone ].

Definition Enrollment : model :=
  MkModel "Enrollment"
    [ required "user_id" TStr;
      required "class_id" TStr;
      defaulted "status" (TLiteral ["going"; "interested"; "canceled"])
        (VStr "going") ].

(** *** The request models of [main.py] *)

Definition CreateVideo : model :=
  MkModel "CreateVideo"
    [ required "title" TStr;
      defaulted "description" (TOptional TStr) VNone;
      required "url" TStr;
      defaulted "duration_sec" (TOptional TInt) VNone;
      defaulted "level" TStr (VStr "beginner");
      defaulted "topics" (TList TStr) (VList []);
      defaulted "requires_plan" TStr (VStr "BASIC") ].

Definition CreateProgress : model :=
  MkModel "CreateProgress"
    [ required "user_id" TStr;
      required "video_id" TStr;
      defaulted "percent" TFloat (VInt 0);
      defaulted "last_position_sec" (TOptional TInt) (VInt 0) ].

Definition CreateForumPost : model :=
  MkModel "CreateForumPost"
    [ required "user_id" TStr;
      required "title" TStr;
      required "content" TStr;
      defaulted "topics" (TList TStr) (VList []) ].

(** ** pydantic's validation of a mapping against a model

    The schemas are data for pydantic, so its reading of them is
    modelled here, as far as the declared annotations go: input is
    coerced in lax mode; every declared field is looked at and all
    errors are collected; a default is taken as declared, without
    validation; a numeric bound declared on an [Optional] field applies
    to the number inside; keys no field declares are ignored. *)

Section Validation.
Context {lib : PyLib}.

(** The outcome of validating one value: the coerced value, or the
    errors found in it. *)
Inductive vres : Type :=
  | VOk (v : value)
  | VErr (errs : list line_error).

Definition fail (t : error_type) (v : value) : vres :=
  VErr [LineError [] t v].

Definition prefix_loc (i : loc_item) (e : line_error) : line_error :=
  LineError (i :: err_loc e) (err_type e) (err_input e).

(** Lax-mode coercions to [int], [float] and [bool]. *)
Definition lax_int (v : value) : error_type + Z :=
  match v with
  | VInt z => inr z
  | VBool b => inr (if b then 1 else 0)
  | VFloat (FFin q) =>
      match float_as_int (FFin q) with
      | Some z => inr z
      | None => inl int_from_float
      end
  | VFloat _ => inl finite_number
  | VStr s =>
      match str_as_int s with
      | Some z => inr z
      | None => inl int_parsing
      end
  | _ => inl int_type
  end.

Definition lax_float (v : value) : error_type + pyfloat :=
  match v with
  | VFloat f => inr f
  | VInt z => inr (float_of_int z)
  | VBool b => inr (float_of_int (if b then 1 else 0))
  | VStr s =>
      match str_as_float s with
      | Some f => inr f
      | None => inl float_parsing
      end
  | _ => inl float_type
  end.

Definition lax_bool (v : value) : error_type + bool :=
  match v with
  | VBool b => inr b
  | VInt 0 => inr false
  | VInt 1 => inr true
  | VInt _ => inl bool_parsing
  | VFloat f =>
      if float_eqb f (float_of_int 0) then inr false
      else if float_eqb f (float_of_int 1) then inr true
      else inl bool_parsing
  | VStr s =>
      match str_as_bool s with
      | Some b => inr b
      | None => inl bool_parsing
      end
  | _ => inl bool_type
  end.

(** The numeric constraints of a field, [le] before [ge]; the first
    one violated is the error. *)
Definition check_bounds (ge le : option Q) (x : pyfloat) : option error_type :=
  match le with
  | Some b =>
      if float_le x (FFin b) then
        match ge with
        | Some a => if float_ge x (FFin a) then None
                    else Some (greater_than_equal a)
        | None => None
        end
      else Some (less_than_equal b)
  | None =>
      match ge with
      | Some a => if float_ge x (FFin a) then None
                  else Some (greater_than_equal a)
      | None => None
      end
  end.

(** Validation of one supplied value against an annotation.  The
    bounds of the field reach the number through [Optional]; the items
    of a list carry none. *)
Fixpoint validate_type (t : ftype) (ge le : option Q) (v : value) : vres :=
  match t with
  | TStr =>
      match v with
      | VStr s => VOk (VStr s)
      | _ => fail string_type v
      end
  | TInt =>
      match lax_int v with
      | inr z =>
          match check_bounds ge le (float_of_int z) with
          | None => VOk (VInt z)
          | Some e => fail e v
          end
      | inl e => fail e v
      end
  | TFloat =>
      match lax_float v with
      | inr f =>
          match check_bounds ge le f with
          | None => VOk (VFloat f)
          | Some e => fail e v
          end
      | inl e => fail e v
      end
  | TBool =>
      match lax_bool v with
      | inr b => VOk (VBool b)
      | inl e => fail e v
      end
  | TEmailStr =>
      match v with
      | VStr s =>
          match validate_email s with
          | Some s' => VOk (VStr s')
          | None => fail value_error v
          end
      | _ => fail string_type v
      end
  | TDatetime =>
      match validate_datetime v with
      | Some micros => VOk (VDatetime micros)
      | None => fail datetime_type v
      end
  | TLiteral choices =>
      match v with
      | VStr s =>
          if bool_decide (s ∈ choices) then VOk (VStr s)
          else fail (literal_error choices) v
      | _ => fail (literal_error choices) v
      end
  | TList item =>
      match v with
      | VList l =>
          let '(errs, vs) :=
            (fix items (i : nat) (l : list value)
                 : list line_error * list value :=
               match l with
               | [] => ([], [])
               | x :: rest =>
                   let '(errs, vs) := items (S i) rest in
                   match validate_type item None None x with
                   | VOk x' => (errs, x' :: vs)
                   | VErr es => (map (prefix_loc (LocIndex i)) es ++ errs, vs)
                   end
               end) O l in
          match errs with
          | [] => VOk (VList vs)
          | _ => VErr errs
          end
      | _ => fail list_type v
      end
  | TOptional inner =>
      match v with
      | VNone => VOk VNone
      | _ => validate_type inner ge le v
      end
  end.

(** One declared field against the input mapping: validate the value
    supplied under its name; when none is supplied take the default as
    declared (defaults are not validated), or report the field missing. *)
Definition validate_field (f : field) (input : dict) : vres :=
  match input !! f_name f with
  | Some v => validate_type (f_type f) (f_ge f) (f_le f) v
  | None =>
      match f_default f with
      | Some d => VOk d
      | None => fail missing (VDict (map_to_list input))
      end
  end.

(** All declared fields in declaration order.  Every field is looked
    at, whatever happened to the ones before it; the errors of a field
    are located under its name.  Keys of the input that no field
    declares are never read. *)
Fixpoint validate_fields (fs : list field) (input : dict)
    : list line_error * dict :=
  match fs with
  | [] => ([], ∅)
  | f :: rest =>
      let '(errs, rec) := validate_fields rest input in
      match validate_field f input with
      | VOk v => (errs, <[f_name f := v]> rec)
      | VErr es => (map (prefix_loc (LocField (f_name f))) es ++ errs, rec)
      end
  end.

(** The model built from the unpacked input, then dumped: the
    validated fields as a dict, or [ValidationError] with every error
    found. *)
Definition model_validate (m : model) (input : dict) : result dict :=
  match validate_fields (m_fields m) input with
  | ([], rec) => Ok rec
  | (errs, _) => Raise (ValidationError (m_name m) errs)
  end.

End Validation.

(** ** The document store *)

(** A query filter, [{"field": value, ...}]. *)
Abbreviation query := (list (string * value)).

(** The database behind [db]: its collections, each the list of its
    documents in insertion order, and the next identifier the driver
    will hand out.  Identifiers are modelled as fresh by counting. *)
Record database : Type := Database {
  db_colls : gmap string (list dict);
  db_next_oid : N;
}.

(** [db[name]]; a collection that was never written to is empty. *)
Definition collection (d : database) (name : string) : list dict :=
  default [] (db_colls d !! name).

Definition set_collection (d : database) (name : string) (c : list dict)
    : database :=
  Database (<[name := c]> (db_colls d)) (db_next_oid d).

(** What BSON keeps of a value: a datetime is stored in whole
    milliseconds.  (The 64-bit limit of BSON integers is not
    modelled.) *)
Definition bson_millis (micros : Z) : Z := 1000 * (micros / 1000).

Fixpoint bson_value (v : value) : value :=
  match v with
  | VDatetime micros => VDatetime (bson_millis micros)
  | VList l => VList (map bson_value l)
  | VDict kvs => VDict (map (fun kv => (kv.1, bson_value kv.2)) kvs)
  | _ => v
  end.

(** One condition [{"field": q}] of a filter against a document: the
    field equals [q], or is an array with an element equal to [q]; a
    document without the field matches [None]. *)
Definition field_matches (q : value) (dv : option value) : bool :=
  match dv with
  | Some (VList l) => value_eqb q (VList l) || existsb (value_eqb q) l
  | Some v => value_eqb q v
  | None => value_eqb q VNone
  end.

Definition matches (flt : query) (d : dict) : bool :=
  forallb (fun c => field_matches c.2 (d !! c.1)) flt.

(** [{"$set": upd}] applied to the first document matching [flt]. *)
Fixpoint update_first (flt : query) (upd : dict) (c : list dict) : list dict :=
  match c with
  | [] => []
  | d :: rest =>
      if matches flt d then (upd ∪ d) :: rest
      else d :: update_first flt upd rest
  end.

(** ** Handlers: state, clock and exceptions *)

(** What a handler runs against: whether the process has a store
    handle ([db] is not [None]), the contents of the store, and how many
    times the clock has been read. *)
Record world : Type := World {
  w_connected : bool;
  w_store : database;
  w_ticks : nat;
}.

(** The module-level [db] of [database.py]. *)
Definition db (w : world) : option database :=
  if w_connected w then Some (w_store w) else None.

Definition M (A : Type) : Type := world -> result A * world.

Definition ret {A} (a : A) : M A := fun w => (Ok a, w).

Definition bind {A B} (m : M A) (k : A -> M B) : M B :=
  fun w =>
    match m w with
    | (Ok a, w') => k a w'
    | (Raise e, w') => (Raise e, w')
    end.

Definition raise {A} (e : exn) : M A := fun w => (Raise e, w).

Definition lift {A} (r : result A) : M A := fun w => (r, w).

Notation "'let*' x ':=' m 'in' k" := (bind m (fun x => k))
  (at level 10, x name, m at level 100, k at level 200,
   format "'[v' 'let*'  x  ':='  m  'in' '/' k ']'").
Notation "m ';;' k" := (bind m (fun _ => k))
  (at level 100, k at level 200, right associativity).

Definition get_db : M (option database) := fun w => (Ok (db w), w).

(** [coll.find_one(flt)]: the first matching document, or [None]. *)
Definition find_one (coll : string) (flt : query) : M (option dict) :=
  fun w => (Ok (List.find (matches flt) (collection (w_store w) coll)), w).

(** [coll.update_one(flt, {"$set": upd})] *)
Definition update_one (coll : string) (flt : query) (upd : dict) : M unit :=
  fun w =>
    let c := update_first flt (bson_value <$> upd) (collection (w_store w) coll) in
    (Ok tt, World (w_connected w) (set_collection (w_store w) coll c) (w_ticks w)).

(** [coll.insert_one(d).inserted_id] for a [d] without [_id]: the driver
    adds a fresh [ObjectId] and the document goes last. *)
Definition insert_one (coll : string) (d : dict) : M value :=
  fun w =>
    let s := w_store w in
    let oid := VObjectId (db_next_oid s) in
    let c := collection s coll ++ [<["_id" := oid]> (bson_value <$> d)] in
    (Ok oid,
     World (w_connected w)
       (Database (<[coll := c]> (db_colls s)) (N.succ (db_next_oid s)))
       (w_ticks w)).

(** [d[key]] *)
Definition getitem (d : dict) (key : string) : M value :=
  match d !! key with
  | Some v => ret v
  | None => raise (KeyError key)
  end.

(** Truth value of a dict: false when empty. *)
Definition dict_is_empty (d : dict) : bool :=
  match map_to_list d with
  | [] => true
  | _ => false
  end.

(** A validated [CreateProgress] request, as the handler receives it. *)
Record CreateProgressT : Type := MkCreateProgress {
  user_id : string;
  video_id : string;
  percent : pyfloat;
  last_position_sec : option Z;
}.

Definition optional_int (o : option Z) : value :=
  match o with
  | Some z => VInt z
  | None => VNone
  end.

(** [p.model_dump()] *)
Definition model_dump (p : CreateProgressT) : dict :=
  {[ "user_id" := VStr (user_id p);
     "video_id" := VStr (video_id p);
     "percent" := VFloat (percent p);
     "last_position_sec" := optional_int (last_position_sec p) ]}.

Section Handlers.
Context {lib : PyLib}.

(** The wall clock: the reading [datetime.now(timezone.utc)] returns the
    [n]-th time it is called, in microseconds since the epoch. *)
Variable clock : nat -> Z.

(** [get_documents] and [create_document] of [database.py], which is
    not part of the sources at hand. *)
Variable get_documents : string -> query -> Z -> M (list dict).
Variable create_document : string -> dict -> M string.

(** [datetime.now(timezone.utc)] *)
Definition now : M value :=
  fun w =>
    (Ok (VDatetime (clock (w_ticks w))),
     World (w_connected w) (w_store w) (S (w_ticks w))).

(** [str(v)] *)
Definition py_str (v : value) : string :=
  match v with
  | VStr s => s
  | VObjectId oid => str_of_oid oid
  | _ => repr_value v
  end.

Definition serialize_doc (doc : dict) : dict :=
  if dict_is_empty doc then doc
  else
    let d := doc in
    match d !! "_id" with
    | Some i => <["id" := VStr (py_str i)]> (delete "_id" d)
    | None => d
    end.

Definition list_videos (limit : Z) : M (list dict) :=
  let* docs := get_documents "video" [] limit in
  ret (map serialize_doc docs).

Definition create_video (payload : dict) : M dict :=
  let* vid := lift (model_validate Video payload) in
  let* new_id := create_document "video" vid in
  ret {[ "id" := VStr new_id ]}.

Definition get_user_progress (user_id : string) (limit : Z) : M (list dict) :=
  let* docs := get_documents "progress" [("user_id", VStr user_id)] limit in
  ret (map serialize_doc docs).

Definition upsert_progress (p : CreateProgressT) : M dict :=
  let* handle := get_db in
  match handle with
  | None => raise (HTTPException 500 "Database not configured")
  | Some _ =>
      let coll := "progress" in
      let* existing :=
        find_one coll [("user_id", VStr (user_id p));
                       ("video_id", VStr (video_id p))] in
      let* data := lift (model_validate Progress (model_dump p)) in
      let* t := now in
      let data := <["updated_at" := t]> data in
      match existing with
      | Some found =>
          if dict_is_empty found then
            let* t' := now in
            let data := <["created_at" := t']> data in
            let* inserted_id := insert_one coll data in
            ret {[ "id" := VStr (py_str inserted_id) ]}
          else
            let* i := getitem found "_id" in
            update_one coll [("_id", i)] data ;;
            let* i' := getitem found "_id" in
            ret {[ "id" := VStr (py_str i') ]}
      | None =>
          let* t' := now in
          let data := <["created_at" := t']> data in
          let* inserted_id := insert_one coll data in
          ret {[ "id" := VStr (py_str inserted_id) ]}
      end
  end.

Definition list_posts (limit : Z) : M (list dict) :=
  let* docs := get_documents "forumpost" [] limit in
  ret (map serialize_doc docs).

Definition create_post (p : dict) : M dict :=
  let* post := lift (model_validate ForumPost p) in
  let* new_id := create_document "forumpost" post in
  ret {[ "id" := VStr new_id ]}.

(** The request body of [POST /api/videos] up to the response: the body
    is validated as [CreateVideo], and the handler gets the dumped
    instance. *)
Definition post_video (body : dict) : M dict :=
  let* payload := lift (model_validate CreateVideo body) in
  create_video payload.

(** A run of upserts, one after the other; an upsert that raises leaves
    the rest to run, as separate requests do. *)
Fixpoint upsert_all (ps : list CreateProgressT) (w : world) : world :=
  match ps with
  | [] => w
  | p :: rest => upsert_all rest (upsert_progress p w).2
  end.

End Handlers.

(** ** Reading validation results *)

(** The field an error is reported under: the head of its location. *)
Definition error_field (e : line_error) : option string :=
  match err_loc e with
  | LocField name :: _ => Some name
  | _ => None
  end.

(** What an error says apart from echoing the input: where, and which
    rule. *)
Definition error_sig (e : line_error) : list loc_item * error_type :=
  (err_loc e, err_type e).

(** The declared field names of a model. *)
Definition field_names (m : model) : list string := f_name <$> m_fields m.

(** A field violates its declaration on an input when its validation
    yields errors. *)
Definition violates `{PyLib} (f : field) (input : dict) : Prop :=
  ∃ es, validate_field f input = VErr es.

(** ** Reading the progress collection *)

Definition progress_docs (s : database) : list dict :=
  collection s "progress".

(** The [ObjectId] a stored document is known by. *)
Definition oid_of (d : dict) : option N :=
  match d !! "_id" with
  | Some (VObjectId oid) => Some oid
  | _ => None
  end.

(** The (user_id, video_id) pair of a progress record. *)
Definition pair_of (d : dict) : option (string * string) :=
  match d !! "user_id", d !! "video_id" with
  | Some (VStr u), Some (VStr v) => Some (u, v)
  | _, _ => None
  end.

(** The progress collection as the store and this program keep it:
    every record has an [ObjectId] the store has already handed out, no
    two records share one, and every record has a user_id and a
    video_id that are strings. *)
Record store_ok (s : database) : Prop := StoreOk {
  ok_oid : ∀ d, d ∈ progress_docs s →
           ∃ oid, oid_of d = Some oid ∧ (oid < db_next_oid s)%N;
  ok_oid_distinct : NoDup (oid_of <$> progress_docs s);
  ok_pair : ∀ d, d ∈ progress_docs s → is_Some (pair_of d);
}.

(** Two versions of a record with the same identifier and the same
    pair. *)
Definition same_keys (d d' : dict) : Prop :=
  d' !! "_id" = d !! "_id" ∧
  d' !! "user_id" = d !! "user_id" ∧
  d' !! "video_id" = d !! "video_id".

(** At most one record per (user_id, video_id) pair: two positions of
    the collection whose records agree on both fields are one
    position. *)
Definition one_record_per_pair (s : database) : Prop :=
  ∀ i j di dj,
    progress_docs s !! i = Some di → progress_docs s !! j = Some dj →
    di !! "user_id" = dj !! "user_id" →
    di !! "video_id" = dj !! "video_id" →
    i = j.

(** The record a first upsert stores: the validated fields, both
    stamps and the new identifier. *)
Definition inserted_record (data : dict) (updated created : Z) (oid : N)
    : dict :=
  <["_id" := VObjectId oid]>
    (bson_value <$>
       <["created_at" := VDatetime created]>
         (<["updated_at" := VDatetime updated]> data)).

(** A playback position that is absent or not negative. *)
Definition valid_position (o : option Z) : Prop :=
  match o with
  | Some z => 0 ≤ z
  | None => True
  end.

(** A float inside the closed interval from 0 to 100. *)
Definition in_range (x : pyfloat) : Prop :=
  match x with
  | FFin q => (0 <= q)%Q ∧ (q <= 100)%Q
  | _ => False
  end.

(** ** A concrete library and clock, to run the model

    Theorems below hold for every [PyLib] and every clock.  To evaluate
    the handlers on concrete requests one instance is fixed here: whole
    decimal numbers are the only number strings, an e-mail address is a
    string with an [@] inside, and a datetime is a datetime or a count
    of seconds. *)

Definition digit_of (c : ascii) : option Z :=
  let n := Z.of_N (N_of_ascii c) in
  if (48 <=? n) && (n <=? 57) then Some (n - 48) else None.

Fixpoint digits_value (s : string) (acc : Z) : option Z :=
  match s with
  | EmptyString => Some acc
  | String c rest =>
      match digit_of c with
      | Some d => digits_value rest (10 * acc + d)
      | None => None
      end
  end.

Definition decimal_int (s : string) : option Z :=
  match s with
  | EmptyString => None
  | String "-" (String c rest) => Z.opp <$> digits_value (String c rest) 0
  | _ => digits_value s 0
  end.

Fixpoint has_at_inside (s : string) (seen_local : bool) : bool :=
  match s with
  | EmptyString => false
  | String "@" rest =>
      seen_local && negb (String.eqb rest EmptyString)
  | String _ rest => has_at_inside rest true
  end.

Definition sample_lib : PyLib := {|
  str_as_int := decimal_int;
  str_as_float := fun s => float_of_int <$> decimal_int s;
  str_as_bool := fun s =>
    if String.eqb s "true" then Some true
    else if String.eqb s "false" then Some false
    else None;
  validate_email := fun s => if has_at_inside s false then Some s else None;
  validate_datetime := fun v =>
    match v with
    | VDatetime micros => Some micros
    | VInt seconds => Some (1000000 * seconds)
    | _ => None
    end;
  repr_value := fun v =>
    match v with
    | VNone => "None"
    | VBool true => "True"
    | VBool false => "False"
    | _ => "?"
    end;
|}.

(** A clock that advances by one microsecond per reading, started one
    microsecond before a millisecond boundary. *)
Definition sample_clock (n : nat) : Z := 1700000000000999 + Z.of_nat n.

(** A store with no documents, and a process connected to it or not. *)
Definition empty_database : database := Database ∅ 0.
Definition fresh_world : world := World true empty_database 0.
Definition unconfigured_world : world := World false empty_database 0.

(** Stand-ins for the two helpers of [database.py], to run the list and
    create handlers: the first returns the matching documents of the
    collection up to the limit, the second inserts the record and
    returns the text of its identifier. *)
Definition sample_get_documents (coll : string) (flt : query) (limit : Z)
    : M (list dict) :=
  fun w =>
    (Ok (take (Z.to_nat limit)
           (List.filter (matches flt) (collection (w_store w) coll))), w).

Definition sample_create_document (coll : string) (record : dict) : M string :=
  let* i := insert_one coll record in
  ret (match i with VObjectId oid => str_of_oid oid | _ => EmptyString end).

(** Requests and bodies to run the model on. *)
Definition first_request : CreateProgressT :=
  MkCreateProgress "u1" "v1" (FFin 50) (Some 10).
Definition repeat_request : CreateProgressT :=
  MkCreateProgress "u1" "v1" (FFin 75) None.
Definition other_request : CreateProgressT :=
  MkCreateProgress "u2" "v1" (FFin 100) (Some 0).
Definition over_request : CreateProgressT :=
  MkCreateProgress "u1" "v1" (FFin 150) (Some 0).

Definition bad_progress_input : dict :=
  {[ "user_id" := VStr "u1"; "video_id" := VStr "v1";
     "percent" := VInt 150; "last_position_sec" := VInt (-5) ]}.

Definition video_body : dict :=
  {[ "title" := VStr "Siu Nim Tao"; "url" := VStr "https://example.com/1" ]}.
Definition video_body_foo : dict := <["foo" := VStr "bar"]> video_body.

Definition progress_body : dict :=
  {[ "user_id" := VStr "u1"; "video_id" := VStr "v1" ]}.
Definition user_body : dict :=
  {[ "name" := VStr "Ip Man"; "email" := VStr "user@example.com" ]}.

Definition stored_video : dict :=
  {[ "_id" := VObjectId 255; "title" := VStr "Siu Nim Tao" ]}.

(** The world after the first request on a fresh store. *)
Definition world_after_first : world :=
  upsert_all (lib := sample_lib) sample_clock [first_request] fresh_world.

(** ** Reading validated values *)

(** A number within the bounds a field declares. *)
Definition within_bounds (ge le : option Q) (x : pyfloat) : Prop :=
  (∀ a, ge = Some a → float_ge x (FFin a) = true) ∧
  (∀ b, le = Some b → float_le x (FFin b) = true).

(** A value of the declared type, within the declared bounds. *)
Fixpoint conforms (t : ftype) (ge le : option Q) (v : value) : Prop :=
  match t with
  | TStr | TEmailStr => ∃ s, v = VStr s
  | TInt => ∃ z, v = VInt z ∧ within_bounds ge le (float_of_int z)
  | TFloat => ∃ f, v = VFloat f ∧ within_bounds ge le f
  | TBool => ∃ b, v = VBool b
  | TDatetime => ∃ micros, v = VDatetime micros
  | TLiteral choices => ∃ s, v = VStr s ∧ s ∈ choices
  | TList item => ∃ l, v = VList l ∧ Forall (conforms item None None) l
  | TOptional inner => v = VNone ∨ conforms inner ge le v
  end.

Definition is_str (v : value) : Prop := ∃ s, v = VStr s.

(** An annotation whose validation needs no parser of the libraries:
    no e-mail address and no datetime inside. *)
Fixpoint plain (t : ftype) : bool :=
  match t with
  | TEmailStr | TDatetime => false
  | TList item => plain item
  | TOptional inner => plain inner
  | _ => true
  end.

(** A model of plain fields whose defaults pass their own field's
    validation unchanged. *)
Definition stable_model `{PyLib} (m : model) : Prop :=
  ∀ f, f ∈ m_fields m →
    plain (f_type f) = true ∧
    ∀ d, f_default f = Some d →
         validate_type (f_type f) (f_ge f) (f_le f) d = VOk d.

(** What the Video schema asks of a payload beyond what the request
    model [CreateVideo] has checked. *)
Definition video_ok (payload : dict) : Prop :=
  (∃ s, payload !! "level" = Some (VStr s) ∧
        s ∈ ["beginner"; "intermediate"; "advanced"]) ∧
  (∃ s, payload !! "requires_plan" = Some (VStr s) ∧ s ∈ plan_tiers) ∧
  (payload !! "duration_sec" = Some VNone ∨
   ∃ z, payload !! "duration_sec" = Some (VInt z) ∧ 0 ≤ z).

(** ** The diagnostics endpoint *)

(** What [test_database] finds when it looks at the store handle: the
    attribute [name], if the handle has one, and what
    [list_collection_names()] does, which is to return the names or to
    raise an exception whose text is given. *)
Record probe : Type := Probe {
  handle_name : option value;
  list_collection_names : string + list string;
}.

(** Truth value of what [os.getenv] returns: a variable that is unset
    or empty counts as false. *)
Definition env_set (getenv : string -> option string) (name : string) : bool :=
  match getenv name with
  | Some (String _ _) => true
  | _ => false
  end.

(** [s[:n]] on a Python string kept as its UTF-8 bytes: the bytes of
    the first [n] characters.  A byte from 128 to 191 continues the
    character before it. *)
Fixpoint utf8_prefix (n : nat) (s : string) : string :=
  match s with
  | EmptyString => EmptyString
  | String c rest =>
      let b := N_of_ascii c in
      if ((128 <=? b) && (b <? 192))%N then String c (utf8_prefix n rest)
      else
        match n with
        | O => EmptyString
        | S k => String c (utf8_prefix k rest)
        end
  end.

(** The handler of [GET /test].  Inside the outer [try] only the
    listing can raise, and it has a handler of its own, so the outer
    [except] is never entered. *)
Definition test_database (w : world) (pr : probe)
    (getenv : string -> option string) : dict :=
  let response : dict :=
    {[ "backend" := VStr "✅ Running";
       "database" := VStr "❌ Not Available";
       "database_url" := VNone;
       "database_name" := VNone;
       "connection_status" := VStr "Not Connected";
       "collections" := VList [] ]} in
  let response :=
    match db w with
    | Some _ =>
        let response := <["database" := VStr "✅ Available"]> response in
        let response := <["database_url" := VStr "✅ Configured"]> response in
        let response :=
          <["database_name" :=
              default (VStr "✅ Connected") (handle_name pr)]> response in
        let response := <["connection_status" := VStr "Connected"]> response in
        match list_collection_names pr with
        | inr collections =>
            let response :=
              <["collections" := VList (VStr <$> take 20 collections)]>
                response in
            <["database" := VStr "✅ Connected & Working"]> response
        | inl text =>
            <["database" :=
                VStr ("⚠️  Connected but Error: " +:+ utf8_prefix 50 text)]>
              response
        end
    | None =>
        <["database" := VStr "⚠️  Available but not initialized"]> response
    end in
  let response :=
    <["database_url" :=
        VStr (if env_set getenv "DATABASE_URL" then "✅ Set"
              else "❌ Not Set")]> response in
  let response :=
    <["database_name" :=
        VStr (if env_set getenv "DATABASE_NAME" then "✅ Set"
              else "❌ Not Set")]> response in
  response.

(** ** More inputs to run the model on *)

Definition stored_with_id : dict :=
  {[ "_id" := VObjectId 255; "id" := VStr "legacy";
     "title" := VStr "Siu Nim Tao" ]}.

Definition progress_input : dict :=
  {[ "user_id" := VStr "u1"; "video_id" := VStr "v1"; "percent" := VInt 50 ]}.

Definition percent_only_input : dict := {[ "percent" := VInt 50 ]}.

Definition video_topics_input : dict :=
  {[ "title" := VStr "Chum Kiu"; "url" := VStr "https://example.com/2";
     "topics" := VList [VStr "forms"; VInt 3] ]}.

Definition bad_progress_input_foo : dict :=
  <["foo" := VStr "bar"]> bad_progress_input.

Definition post_body : dict :=
  {[ "user_id" := VStr "u1"; "title" := VStr "Footwork";
     "content" := VStr "How do you train it?" ]}.

Definition video_body_expert : dict := <["level" := VStr "expert"]> video_body.

(** [video_body_expert] as [CreateVideo] validates it. *)
Definition expert_payload : dict :=
  {[ "title" := VStr "Siu Nim Tao"; "description" := VNone;
     "url" := VStr "https://example.com/1"; "duration_sec" := VNone;
     "level" := VStr "expert"; "topics" := VList [];
     "requires_plan" := VStr "BASIC" ]}.

(** The record of [first_request] in [world_after_first]. *)
Definition first_record : dict :=
  inserted_record (model_dump first_request) (sample_clock 0)
    (sample_clock 1) 0.

Definition sample_probe : probe :=
  Probe (Some (VStr "wingchun")) (inr ["video"; "progress"]).

Definition sample_getenv (name : string) : option string :=
  if String.eqb name "DATABASE_URL" then Some "mongodb://localhost:27017"
  else None.

(** * Properties *)

(** Membership of a field in a schema, and distinctness of a schema's
    field names, both by evaluation. *)
Ltac field_declared :=
  simpl; repeat first [apply list_elem_of_here | apply list_elem_of_further].
Ltac distinct_names := apply (bool_decide_unpack _); vm_compute; exact I.
Section ValidationFacts.
Context {lib : PyLib}.

#[local] Arguments check_bounds : simpl never.

Lemma validate_type_errs_nonempty t ge le v es :
  validate_type t ge le v = VErr es → es ≠ [].
Proof.
  revert ge le v es. induction t as [| | | | | |cs|item IH|inner IH]; intros ge le v es; simpl.
  - destruct v; unfold fail; intros [= <-]; done.
  - destruct (lax_int v) as [e|z]; [unfold fail; intros [= <-]; done|].
    destruct (check_bounds ge le (float_of_int z)); unfold fail; intros [= <-]; done.
  - destruct (lax_float v) as [e|z]; [unfold fail; intros [= <-]; done|].
    destruct (check_bounds ge le z); unfold fail; intros [= <-]; done.
  - destruct (lax_bool v); unfold fail; intros [= <-]; done.
  - destruct v; try (unfold fail; intros [= <-]; done).
    destruct (validate_email s); unfold fail; intros [= <-]; done.
  - destruct (validate_datetime v); unfold fail; intros [= <-]; done.
  - destruct v; try (unfold fail; intros [= <-]; done).
    case_bool_decide; unfold fail; intros [= <-]; done.
  - destruct v; try (unfold fail; intros [= <-]; done).
    match goal with |- context [let '(_, _) := ?x in _] => destruct x as [errs vs] end.
    destruct errs; intros [= <-]; done.
  - destruct v; try apply IH. done.
Qed.

Lemma validate_field_errs_nonempty f input es :
  validate_field f input = VErr es → es ≠ [].
Proof.
  unfold validate_field. destruct (input !! f_name f).
  - apply validate_type_errs_nonempty.
  - destruct (f_default f); unfold fail; intros [= <-]; done.
Qed.

Lemma validate_fields_cons f rest input :
  validate_fields (f :: rest) input =
    match validate_field f input with
    | VOk v => ((validate_fields rest input).1,
                <[f_name f := v]> (validate_fields rest input).2)
    | VErr es =>
        (map (prefix_loc (LocField (f_name f))) es ++ (validate_fields rest input).1,
         (validate_fields rest input).2)
    end.
Proof.
  simpl. destruct (validate_fields rest input) as [errs rec].
  by destruct (validate_field f input).
Qed.

Lemma validate_fields_declared fs input k :
  is_Some ((validate_fields fs input).2 !! k) → k ∈ f_name <$> fs.
Proof.
  induction fs as [|f rest IH].
  - simpl. rewrite lookup_empty. by intros [? ?].
  - rewrite validate_fields_cons.
    destruct (validate_field f input) as [v|es]; simpl.
    + destruct (decide (f_name f = k)) as [->|Hne].
      * intros _. set_solver.
      * rewrite lookup_insert_ne; [|done]. set_solver.
    + set_solver.
Qed.

Lemma validate_fields_lookup fs input f v :
  NoDup (f_name <$> fs) → f ∈ fs → validate_field f input = VOk v →
  (validate_fields fs input).2 !! f_name f = Some v.
Proof.
  induction fs as [|g rest IH]; intros Hnd Hin Hv.
  - by apply elem_of_nil in Hin.
  - rewrite fmap_cons in Hnd. apply NoDup_cons in Hnd as [Hg Hnd].
    rewrite validate_fields_cons.
    apply elem_of_cons in Hin as [->|Hin].
    + rewrite Hv. simpl. by rewrite lookup_insert_eq.
    + assert (f_name g ≠ f_name f) as Hne.
      { intros Heq. apply Hg. rewrite Heq. by apply list_elem_of_fmap_2. }
      destruct (validate_field g input); simpl.
      * rewrite lookup_insert_ne; [|done]. by apply IH.
      * by apply IH.
Qed.

Lemma error_field_prefix name e :
  error_field (prefix_loc (LocField name) e) = Some name.
Proof. done. Qed.

Lemma validate_fields_error_of fs input e :
  e ∈ (validate_fields fs input).1 →
  ∃ f, f ∈ fs ∧ error_field e = Some (f_name f) ∧ violates f input.
Proof.
  induction fs as [|g rest IH].
  - by intros ?%elem_of_nil.
  - rewrite validate_fields_cons.
    destruct (validate_field g input) as [v|es] eqn:Hg; simpl.
    + intros (f & ? & ? & ?)%IH. exists f. set_solver.
    + intros [He|He]%elem_of_app.
      * apply list_elem_of_fmap in He as (e0 & -> & _).
        exists g. split; [set_solver|]. split; [done|]. by exists es.
      * apply IH in He as (f & ? & ? & ?). exists f. set_solver.
Qed.

Lemma validate_fields_keeps fs input f es e0 :
  f ∈ fs → validate_field f input = VErr es → e0 ∈ es →
  prefix_loc (LocField (f_name f)) e0 ∈ (validate_fields fs input).1.
Proof.
  induction fs as [|g rest IH]; intros Hin Hes He0.
  - by apply elem_of_nil in Hin.
  - rewrite validate_fields_cons.
    apply elem_of_cons in Hin as [->|Hin].
    + rewrite Hes. simpl. apply elem_of_app. left.
      by apply list_elem_of_fmap_2.
    + specialize (IH Hin Hes He0).
      destruct (validate_field g input); simpl; [done|].
      apply elem_of_app. by right.
Qed.

Lemma validate_fields_reports fs input f :
  f ∈ fs → violates f input →
  ∃ e, e ∈ (validate_fields fs input).1 ∧ error_field e = Some (f_name f).
Proof.
  intros Hin [es Hes].
  destruct es as [|e0 es']; [by apply validate_field_errs_nonempty in Hes|].
  exists (prefix_loc (LocField (f_name f)) e0). split; [|done].
  apply (validate_fields_keeps fs input f (e0 :: es')); [done..|].
  apply list_elem_of_here.
Qed.

Lemma validate_fields_clean fs input :
  (validate_fields fs input).1 = [] →
  ∀ f, f ∈ fs → ∃ v, validate_field f input = VOk v.
Proof.
  intros Hnil f Hin. destruct (validate_field f input) as [v|es] eqn:Hf; [by exists v|].
  destruct (validate_fields_reports fs input f Hin) as (e & He & _); [by exists es|].
  rewrite Hnil in He. by apply elem_of_nil in He.
Qed.

Lemma model_validate_ok m input rec :
  model_validate m input = Ok rec ↔
  validate_fields (m_fields m) input = ([], rec).
Proof.
  unfold model_validate.
  destruct (validate_fields (m_fields m) input) as [[|e errs] r]; naive_solver.
Qed.

Lemma model_validate_raise m input e :
  model_validate m input = Raise e ↔
  e = ValidationError (m_name m) (validate_fields (m_fields m) input).1 ∧
  (validate_fields (m_fields m) input).1 ≠ [].
Proof.
  unfold model_validate.
  destruct (validate_fields (m_fields m) input) as [[|e0 errs] r]; naive_solver.
Qed.

Lemma validate_field_agree f (in1 in2 : dict) :
  in1 !! f_name f = in2 !! f_name f →
  match validate_field f in1, validate_field f in2 with
  | VOk a, VOk b => a = b
  | VErr e1, VErr e2 => error_sig <$> e1 = error_sig <$> e2
  | _, _ => False
  end.
Proof.
  intros Heq. unfold validate_field. rewrite <- Heq.
  destruct (in1 !! f_name f) as [v|].
  - by destruct (validate_type _ _ _ v).
  - by destruct (f_default f).
Qed.

Lemma validate_fields_agree fs (in1 in2 : dict) :
  (∀ k, k ∈ f_name <$> fs → in1 !! k = in2 !! k) →
  (validate_fields fs in1).2 = (validate_fields fs in2).2 ∧
  error_sig <$> (validate_fields fs in1).1 =
    error_sig <$> (validate_fields fs in2).1.
Proof.
  induction fs as [|f rest IH]; intros Hagree; [done|].
  destruct IH as [IHr IHe]; [intros k Hk; apply Hagree; set_solver|].
  rewrite !validate_fields_cons.
  pose proof (validate_field_agree f in1 in2) as Hf.
  destruct (validate_field f in1) as [a|e1], (validate_field f in2) as [b|e2];
    simpl in *; try (exfalso; apply Hf, Hagree; set_solver).
  - rewrite Hf; [|apply Hagree; set_solver]. by rewrite IHr.
  - split; [done|]. rewrite !fmap_app, IHe. f_equal.
    rewrite <- !list_fmap_compose.
    specialize (Hf ltac:(apply Hagree; set_solver)).
    revert e2 Hf. induction e1 as [|x e1 IHe1]; intros [|y e2] Hf; try done.
    simpl in *. injection Hf as Hxy Hf. f_equal; [|by apply IHe1].
    destruct x, y; unfold error_sig in *; simpl in *. congruence.
Qed.

Lemma names_determine_field fs f g :
  NoDup (f_name <$> fs) → f ∈ fs → g ∈ fs → f_name f = f_name g → f = g.
Proof.
  induction fs as [|h rest IH]; intros Hnd Hf Hg Heq.
  - by apply elem_of_nil in Hf.
  - rewrite fmap_cons in Hnd. apply NoDup_cons in Hnd as [Hh Hnd].
    apply elem_of_cons in Hf as [->|Hf]; apply elem_of_cons in Hg as [->|Hg].
    + done.
    + exfalso. apply Hh. rewrite Heq. by apply list_elem_of_fmap_2.
    + exfalso. apply Hh. rewrite <- Heq. by apply list_elem_of_fmap_2.
    + by apply IH.
Qed.

Lemma validate_fields_default fs input f d :
  NoDup (f_name <$> fs) → f ∈ fs →
  input !! f_name f = None → f_default f = Some d →
  (validate_fields fs input).2 !! f_name f = Some d.
Proof.
  intros Hnd Hin Hnone Hd. apply validate_fields_lookup; [done..|].
  unfold validate_field. by rewrite Hnone, Hd.
Qed.

Lemma schemas_distinct_names :
  Forall (λ m, NoDup (field_names m))
    [User; Subscription; Video; Progress; ForumPost; Comment; LiveClass;
     Enrollment; CreateVideo; CreateProgress; CreateForumPost].
Proof.
  repeat (constructor; [apply (bool_decide_unpack _); vm_compute; exact I|]).
  constructor.
Qed.

Lemma model_validate_default m input rec f d :
  NoDup (field_names m) → f ∈ m_fields m → f_default f = Some d →
  model_validate m input = Ok rec → input !! f_name f = None →
  rec !! f_name f = Some d.
Proof.
  intros Hnd Hin Hd Hok%model_validate_ok Hnone.
  pose proof (validate_fields_default (m_fields m) input f d Hnd Hin Hnone Hd) as H.
  by rewrite Hok in H.
Qed.

Lemma model_validate_declared m input rec k :
  model_validate m input = Ok rec → k ∉ field_names m → rec !! k = None.
Proof.
  intros Hok%model_validate_ok Hk.
  destruct (rec !! k) as [v|] eqn:Hv; [|done].
  exfalso. apply Hk. apply (validate_fields_declared (m_fields m) input).
  rewrite Hok. simpl. by rewrite Hv.
Qed.

Lemma model_validate_agree m (in1 in2 rec : dict) :
  (∀ k, k ∈ field_names m → in1 !! k = in2 !! k) →
  model_validate m in1 = Ok rec → model_validate m in2 = Ok rec.
Proof.
  intros Hagree Hok%model_validate_ok. apply model_validate_ok.
  destruct (validate_fields_agree (m_fields m) in1 in2 Hagree) as [Hr He].
  rewrite Hok in Hr, He. simpl in *.
  destruct (validate_fields (m_fields m) in2) as [errs r]. simpl in *.
  subst r. symmetry in He. apply fmap_nil_inv in He. by subst errs.
Qed.

(** C6: validation of an untyped mapping against a model either yields a
    record holding, for every declared field, its validated or default
    value, or raises [ValidationError] whose errors name every declared
    field that violates its declaration, and only such fields. *)
Theorem validation_reports_every_violating_field (m : model) (input : dict) :
  NoDup (field_names m) →
  (∃ rec, model_validate m input = Ok rec ∧
     (∀ k, is_Some (rec !! k) ↔ k ∈ field_names m) ∧
     (∀ f, f ∈ m_fields m →
        ∃ v, validate_field f input = VOk v ∧ rec !! f_name f = Some v)) ∨
  (∃ errs, model_validate m input = Raise (ValidationError (m_name m) errs) ∧
     errs ≠ [] ∧
     (∀ f, f ∈ m_fields m →
        (violates f input ↔
         ∃ e, e ∈ errs ∧ error_field e = Some (f_name f))) ∧
     (∀ e, e ∈ errs →
        ∃ f, f ∈ m_fields m ∧ error_field e = Some (f_name f))).
Proof.
  intros Hnd. unfold field_names in *.
  destruct (model_validate m input) as [rec|e] eqn:Hres.
  - left. exists rec. split; [done|].
    apply model_validate_ok in Hres.
    assert ((validate_fields (m_fields m) input).1 = []) as Hnil by (by rewrite Hres).
    assert (∀ f, f ∈ m_fields m →
              ∃ v, validate_field f input = VOk v ∧ rec !! f_name f = Some v) as Hall.
    { intros f Hin.
      destruct (validate_fields_clean _ _ Hnil f Hin) as [v Hv].
      exists v. split; [done|].
      pose proof (validate_fields_lookup _ _ _ _ Hnd Hin Hv) as Hl.
      by rewrite Hres in Hl. }
    split; [|done].
    intros k. split.
    + intros Hk. apply (validate_fields_declared (m_fields m) input).
      by rewrite Hres.
    + intros (f & -> & Hin)%list_elem_of_fmap.
      destruct (Hall f Hin) as (v & _ & ->). by eexists.
  - right. apply model_validate_raise in Hres as [-> Hne].
    eexists. split; [done|]. split; [done|]. split.
    + intros f Hin. split.
      * by apply validate_fields_reports.
      * intros (e & He & Hf).
        apply validate_fields_error_of in He as (g & Hg & Hfg & Hviol).
        assert (f = g) as ->; [|done].
        apply (names_determine_field (m_fields m)); [done..|congruence].
    + intros e (g & Hg & Hfg & _)%validate_fields_error_of. by exists g.
Qed.


(** C7: a field with a declared default that the input leaves out is
    set to that default in the validated record: level, topics and
    requires_plan of a Video; percent and last_position_sec of a
    Progress; plan and is_active of a User. *)
Theorem absent_fields_take_declared_defaults (input rec : dict) :
  (model_validate Video input = Ok rec →
     (input !! "level" = None → rec !! "level" = Some (VStr "beginner")) ∧
     (input !! "topics" = None → rec !! "topics" = Some (VList [])) ∧
     (input !! "requires_plan" = None →
        rec !! "requires_plan" = Some (VStr "BASIC"))) ∧
  (model_validate Progress input = Ok rec →
     (input !! "percent" = None → rec !! "percent" = Some (VInt 0)) ∧
     (input !! "last_position_sec" = None →
        rec !! "last_position_sec" = Some (VInt 0))) ∧
  (model_validate User input = Ok rec →
     (input !! "plan" = None → rec !! "plan" = Some (VStr "BASIC")) ∧
     (input !! "is_active" = None → rec !! "is_active" = Some (VBool true))).
Proof.
  repeat split; intros;
    match goal with
    | Hok : model_validate ?m input = Ok rec |- rec !! ?k = Some ?d =>
        let f := eval cbv in
          (List.find (λ f, String.eqb (f_name f) k) (m_fields m)) in
        match f with
        | Some ?f =>
            apply (model_validate_default m input rec f d);
              [distinct_names | field_declared | done | done | done]
        end
    end.
Qed.

(** C8: two inputs that agree on every declared field of a model, so
    that they differ only in undeclared keys, validate to the same
    record whenever one of them validates; that record has no undeclared
    key; and POST /api/videos treats the two bodies alike. *)
Theorem undeclared_fields_are_not_observable
    (create_document : string → dict → M string)
    (m : model) (body body' rec : dict) :
  (∀ k, k ∈ field_names m → body !! k = body' !! k) →
  model_validate m body = Ok rec →
  model_validate m body' = Ok rec ∧
  (∀ k, k ∉ field_names m → rec !! k = None) ∧
  (m = CreateVideo →
     ∀ w, post_video create_document body' w = post_video create_document body w).
Proof.
  intros Hagree Hok.
  pose proof (model_validate_agree m body body' rec Hagree Hok) as Hok'.
  split; [done|]. split.
  - intros k Hk. by apply (model_validate_declared m body).
  - intros -> w. unfold post_video, bind, lift. by rewrite Hok, Hok'.
Qed.

Lemma model_dump_lookup p :
  model_dump p !! "user_id" = Some (VStr (user_id p)) ∧
  model_dump p !! "video_id" = Some (VStr (video_id p)) ∧
  model_dump p !! "percent" = Some (VFloat (percent p)) ∧
  model_dump p !! "last_position_sec" =
    Some (optional_int (last_position_sec p)).
Proof. unfold model_dump. repeat split; by simplify_map_eq. Qed.

Lemma check_percent_bounds x :
  check_bounds (Some 0%Q) (Some 100%Q) x = None ↔ in_range x.
Proof.
  unfold check_bounds, float_ge, in_range.
  destruct x as [q|[]|]; simpl; try (split; [done|tauto]).
  destruct (Qle_bool q 100) eqn:Hle; [destruct (Qle_bool 0 q) eqn:Hge|].
  - apply Qle_bool_iff in Hle, Hge. tauto.
  - split; [done|]. intros [Hge' _]. apply Qle_bool_iff in Hge'. congruence.
  - split; [done|]. intros [_ Hle']. apply Qle_bool_iff in Hle'. congruence.
Qed.

Lemma check_position_bound z :
  check_bounds (Some 0%Q) None (float_of_int z) = None ↔ 0 ≤ z.
Proof.
  unfold check_bounds, float_ge, float_of_int, float_le.
  destruct (Qle_bool 0 (inject_Z z)) eqn:Hge.
  - apply Qle_bool_iff in Hge. change 0%Q with (inject_Z 0) in Hge.
    rewrite <- Zle_Qle in Hge. tauto.
  - split; [done|]. intros Hz. rewrite Zle_Qle in Hz.
    change (inject_Z 0) with 0%Q in Hz. apply Qle_bool_iff in Hz. congruence.
Qed.

Lemma progress_percent_rejected (input : dict) v x :
  input !! "percent" = Some v → lax_float v = inr x → ¬ in_range x →
  ∃ errs,
    model_validate Progress input = Raise (ValidationError "Progress" errs) ∧
    ∃ e, e ∈ errs ∧ err_loc e = [LocField "percent"] ∧ err_input e = v.
Proof.
  intros Hv Hx Hout.
  set (f := MkField "percent" TFloat (Some (VInt 0)) (Some 0%Q) (Some 100%Q)).
  assert (∃ t, validate_field f input = VErr [LineError [] t v]) as [t Hf].
  { unfold validate_field, f. simpl. rewrite Hv, Hx.
    destruct (check_bounds (Some 0%Q) (Some 100%Q) x) as [t|] eqn:Hb.
    - by exists t.
    - exfalso. apply Hout. by apply check_percent_bounds. }
  assert (prefix_loc (LocField "percent") (LineError [] t v)
            ∈ (validate_fields (m_fields Progress) input).1) as He.
  { apply (validate_fields_keeps _ input f [LineError [] t v]); [|done|].
    - unfold f. field_declared.
    - apply list_elem_of_here. }
  exists (validate_fields (m_fields Progress) input).1. split.
  - apply model_validate_raise. split; [done|].
    intros Hnil. rewrite Hnil in He. by apply elem_of_nil in He.
  - eexists. split; [exact He|]. done.
Qed.

Lemma progress_dump_valid p :
  in_range (percent p) → valid_position (last_position_sec p) →
  model_validate Progress (model_dump p) = Ok (model_dump p).
Proof.
  intros Hp Hpos. destruct (model_dump_lookup p) as (Hu & Hv & Hpc & Hl).
  apply check_percent_bounds in Hp.
  unfold model_validate, Progress. simpl m_fields.
  rewrite !validate_fields_cons. unfold validate_field. simpl f_name.
  rewrite Hu, Hv, Hpc, Hl. simpl. rewrite Hp.
  destruct (last_position_sec p) as [z|] eqn:Hz; simpl.
  - apply check_position_bound in Hpos. rewrite Hpos.
    unfold model_dump. rewrite Hz. done.
  - unfold model_dump. rewrite Hz. done.
Qed.

Lemma progress_dump_validate p :
  (∀ rec, model_validate Progress (model_dump p) = Ok rec → rec = model_dump p) ∧
  (∀ e, model_validate Progress (model_dump p) = Raise e →
        ∃ errs, e = ValidationError "Progress" errs).
Proof.
  destruct (model_dump_lookup p) as (Hu & Hv & Hpc & Hl). split.
  - intros rec. unfold model_validate, Progress. simpl m_fields.
    rewrite !validate_fields_cons. unfold validate_field. simpl f_name.
    rewrite Hu, Hv, Hpc, Hl. simpl.
    destruct (check_bounds (Some 0%Q) (Some 100%Q) (percent p));
      destruct (last_position_sec p) as [z|] eqn:Hz; simpl; try done;
      try (destruct (check_bounds (Some 0%Q) None (float_of_int z)); simpl; try done);
      intros [= <-]; unfold model_dump; rewrite Hz; done.
  - intros e He. apply model_validate_raise in He as [-> _]. by eexists.
Qed.

End ValidationFacts.

(** ** The store operations *)

Lemma dict_is_empty_lookup (d : dict) k :
  dict_is_empty d = true → d !! k = None.
Proof.
  unfold dict_is_empty. destruct (map_to_list d) eqn:Hl; [|done].
  intros _. apply map_to_list_empty_iff in Hl. subst d. apply lookup_empty.
Qed.

Lemma oid_of_lookup (d : dict) oid :
  oid_of d = Some oid ↔ d !! "_id" = Some (VObjectId oid).
Proof.
  unfold oid_of. destruct (d !! "_id") as [[]|]; naive_solver.
Qed.

Lemma pair_of_lookup (d : dict) u v :
  pair_of d = Some (u, v) ↔
  d !! "user_id" = Some (VStr u) ∧ d !! "video_id" = Some (VStr v).
Proof.
  unfold pair_of.
  destruct (d !! "user_id") as [[]|], (d !! "video_id") as [[]|]; naive_solver.
Qed.

Lemma matches_oid (d : dict) oid oid' :
  oid_of d = Some oid' → matches [("_id", VObjectId oid)] d = (oid =? oid')%N.
Proof.
  intros Hd%oid_of_lookup. unfold matches. simpl. rewrite Hd. simpl.
  apply andb_true_r.
Qed.

Lemma matches_pair (d : dict) u v u' v' :
  pair_of d = Some (u', v') →
  matches [("user_id", VStr u); ("video_id", VStr v)] d
    = (String.eqb u u' && String.eqb v v').
Proof.
  intros [Hu Hv]%pair_of_lookup. unfold matches. simpl. rewrite Hu, Hv. simpl.
  by rewrite andb_true_r.
Qed.

Lemma matches_pair_true (d : dict) u v :
  is_Some (pair_of d) →
  matches [("user_id", VStr u); ("video_id", VStr v)] d = true ↔
  pair_of d = Some (u, v).
Proof.
  intros [[u' v'] Hd]. rewrite (matches_pair d u v u' v' Hd), Hd.
  rewrite andb_true_iff, !String.eqb_eq. naive_solver.
Qed.

#[local] Arguments matches : simpl never.

Lemma find_none_all {A} (P : A → bool) (c : list A) :
  List.find P c = None → ∀ d, d ∈ c → P d = false.
Proof.
  induction c as [|x c IH]; simpl; intros Hf d Hd.
  - by apply elem_of_nil in Hd.
  - destruct (P x) eqn:Hx; [done|].
    apply elem_of_cons in Hd as [->|Hd]; [done|by apply IH].
Qed.

Lemma update_first_found (P : dict → bool) (c : list dict) ex oid upd :
  (∀ d, d ∈ c → is_Some (oid_of d)) → NoDup (oid_of <$> c) →
  List.find P c = Some ex → oid_of ex = Some oid →
  ∃ l1 l2,
    c = l1 ++ ex :: l2 ∧
    update_first [("_id", VObjectId oid)] upd c = l1 ++ (upd ∪ ex) :: l2 ∧
    P ex = true ∧ (∀ d, d ∈ l1 → P d = false).
Proof.
  intros Hids Hnd Hfind Hex.
  induction c as [|d rest IH]; [done|].
  rewrite fmap_cons in Hnd. apply NoDup_cons in Hnd as [Hd Hnd].
  simpl in Hfind. destruct (P d) eqn:HPd.
  - injection Hfind as ->. exists [], rest. simpl.
    rewrite (matches_oid ex oid oid Hex), N.eqb_refl.
    repeat split; [done|]. by intros ? ?%elem_of_nil.
  - destruct IH as (l1 & l2 & -> & Hupd & HPex & Hl1); [|done..|].
    { intros d' Hd'. apply Hids. by apply list_elem_of_further. }
    destruct (Hids d) as [oid' Hoid']; [apply list_elem_of_here|].
    exists (d :: l1), l2. simpl.
    rewrite (matches_oid d oid oid' Hoid').
    assert (oid ≠ oid') as Hne.
    { intros <-. apply Hd. rewrite Hoid', <- Hex.
      apply list_elem_of_fmap_2. set_solver. }
    apply N.eqb_neq in Hne. rewrite Hne, Hupd.
    repeat split; [done|].
    intros d' [->|Hd']%elem_of_cons; [done|by apply Hl1].
Qed.

Lemma find_some_elem {A} (P : A → bool) (c : list A) x :
  List.find P c = Some x → x ∈ c ∧ P x = true.
Proof.
  induction c as [|y c IH]; simpl; [done|].
  destruct (P y) eqn:Hy.
  - intros [= ->]. split; [apply list_elem_of_here|done].
  - intros [Hx HP]%IH. split; [by apply list_elem_of_further|done].
Qed.

Lemma progress_docs_set s c :
  progress_docs (set_collection s "progress" c) = c.
Proof.
  unfold progress_docs, collection, set_collection. simpl.
  by rewrite lookup_insert_eq.
Qed.

Lemma same_keys_oid d d' : same_keys d d' → oid_of d' = oid_of d.
Proof. intros (Hi & _ & _). unfold oid_of. by rewrite Hi. Qed.

Lemma same_keys_pair d d' : same_keys d d' → pair_of d' = pair_of d.
Proof. intros (_ & Hu & Hv). unfold pair_of. by rewrite Hu, Hv. Qed.

Lemma same_keys_refl d : same_keys d d.
Proof. by repeat split. Qed.

Lemma same_keys_oids c c' :
  Forall2 same_keys c c' → oid_of <$> c' = oid_of <$> c.
Proof.
  induction 1 as [|d d' c c' Hd _ IH]; [done|].
  rewrite !fmap_cons, IH. f_equal. by apply same_keys_oid.
Qed.

Lemma store_ok_same_keys s c' :
  Forall2 same_keys (progress_docs s) c' →
  store_ok s → store_ok (set_collection s "progress" c').
Proof.
  intros Hsame [Hoid Hnd Hpair]. split; rewrite progress_docs_set.
  - intros d' (i & Hi)%list_elem_of_lookup.
    destruct (Forall2_lookup_r _ _ _ _ _ Hsame Hi) as (d & Hd & Hk).
    rewrite (same_keys_oid d d' Hk). apply Hoid.
    apply list_elem_of_lookup. by exists i.
  - by rewrite (same_keys_oids _ _ Hsame).
  - intros d' (i & Hi)%list_elem_of_lookup.
    destruct (Forall2_lookup_r _ _ _ _ _ Hsame Hi) as (d & Hd & Hk).
    rewrite (same_keys_pair d d' Hk). apply Hpair.
    apply list_elem_of_lookup. by exists i.
Qed.

Lemma one_record_same_keys s c' :
  Forall2 same_keys (progress_docs s) c' →
  one_record_per_pair s →
  one_record_per_pair (set_collection s "progress" c').
Proof.
  intros Hsame Hone i j di' dj'. rewrite progress_docs_set.
  intros Hi Hj Hu Hv.
  destruct (Forall2_lookup_r _ _ _ _ _ Hsame Hi) as (di & Hdi & (_ & Hui & Hvi)).
  destruct (Forall2_lookup_r _ _ _ _ _ Hsame Hj) as (dj & Hdj & (_ & Huj & Hvj)).
  apply (Hone i j di dj); [done..|congruence|congruence].
Qed.

Lemma find_pair_some s d u v :
  store_ok s → d ∈ progress_docs s → pair_of d = Some (u, v) →
  ∃ found,
    List.find (matches [("user_id", VStr u); ("video_id", VStr v)])
      (progress_docs s) = Some found ∧
    found ∈ progress_docs s ∧ pair_of found = Some (u, v).
Proof.
  intros Hok Hd Hp.
  destruct (List.find _ (progress_docs s)) as [found|] eqn:Hf.
  - apply find_some_elem in Hf as [Hin Hm]. exists found.
    split; [done|]. split; [done|].
    apply matches_pair_true; [by apply (ok_pair s Hok)|done].
  - pose proof (find_none_all _ _ Hf d Hd) as Hm.
    assert (matches [("user_id", VStr u); ("video_id", VStr v)] d = true);
      [|congruence].
    apply matches_pair_true; [by rewrite Hp|done].
Qed.

Lemma store_ok_insert s (d : dict) :
  store_ok s →
  oid_of d = Some (db_next_oid s) → is_Some (pair_of d) →
  store_ok (Database (<["progress" := progress_docs s ++ [d]]> (db_colls s))
              (N.succ (db_next_oid s))).
Proof.
  intros [Hoid Hnd Hpair] Hd Hp.
  assert (progress_docs
            (Database (<["progress" := progress_docs s ++ [d]]> (db_colls s))
               (N.succ (db_next_oid s))) = progress_docs s ++ [d]) as Hdocs.
  { unfold progress_docs at 1, collection. simpl. by rewrite lookup_insert_eq. }
  split; rewrite Hdocs; simpl.
  - intros x [Hx|Hx%list_elem_of_singleton]%elem_of_app.
    + destruct (Hoid x Hx) as (oid & Ho & Hlt). exists oid. split; [done|lia].
    + subst x. exists (db_next_oid s). split; [done|lia].
  - rewrite fmap_app. apply NoDup_app. split; [done|]. split.
    + intros o Ho [->|[]%elem_of_nil]%elem_of_cons.
      apply list_elem_of_fmap in Ho as (x & Hx & Hin).
      destruct (Hoid x Hin) as (oid & Ho & Hlt). rewrite Hd in Hx.
      rewrite Ho in Hx. injection Hx as <-. lia.
    + apply NoDup_singleton.
  - intros x [Hx|Hx%list_elem_of_singleton]%elem_of_app; [by apply Hpair|by subst].
Qed.

Lemma one_record_insert s (d : dict) u v :
  one_record_per_pair s →
  List.find (matches [("user_id", VStr u); ("video_id", VStr v)])
    (progress_docs s) = None →
  pair_of d = Some (u, v) →
  one_record_per_pair
    (Database (<["progress" := progress_docs s ++ [d]]> (db_colls s))
       (N.succ (db_next_oid s))).
Proof.
  intros Hone Hfind [Hdu Hdv]%pair_of_lookup i j di dj.
  assert (progress_docs
            (Database (<["progress" := progress_docs s ++ [d]]> (db_colls s))
               (N.succ (db_next_oid s))) = progress_docs s ++ [d]) as ->.
  { unfold progress_docs at 1, collection. simpl. by rewrite lookup_insert_eq. }
  assert (∀ k x, progress_docs s !! k = Some x →
            x !! "user_id" = Some (VStr u) → x !! "video_id" = Some (VStr v) →
            False) as Hfresh.
  { intros k x Hk Hxu Hxv.
    assert (x ∈ progress_docs s) as Hin by (apply list_elem_of_lookup; eauto).
    pose proof (find_none_all _ _ Hfind x Hin) as Hm.
    rewrite (matches_pair x u v u v) in Hm; [|by apply pair_of_lookup].
    by rewrite !String.eqb_refl in Hm. }
  intros Hi Hj Hu Hv.
  apply lookup_app_Some in Hi as [Hi|[Hil Hi]];
    apply lookup_app_Some in Hj as [Hj|[Hjl Hj]].
  - by apply (Hone i j di dj).
  - apply list_lookup_singleton_Some in Hj as [_ <-].
    exfalso. apply (Hfresh i di Hi); congruence.
  - apply list_lookup_singleton_Some in Hi as [_ <-].
    exfalso. apply (Hfresh j dj Hj); congruence.
  - apply list_lookup_singleton_Some in Hi as [Hi0 _].
    apply list_lookup_singleton_Some in Hj as [Hj0 _]. lia.
Qed.

Section HandlerFacts.
Context {lib : PyLib}.
Variable clock : nat → Z.

Lemma bson_model_dump p : bson_value <$> model_dump p = model_dump p.
Proof.
  unfold model_dump.
  rewrite !fmap_insert, map_fmap_singleton. simpl.
  by destruct (last_position_sec p).
Qed.

Lemma upsert_unconfigured p w :
  w_connected w = false →
  upsert_progress clock p w =
    (Raise (HTTPException 500 "Database not configured"), w).
Proof.
  intros Hc. unfold upsert_progress, bind, get_db, db. by rewrite Hc.
Qed.

Lemma upsert_invalid p w e :
  w_connected w = true →
  model_validate Progress (model_dump p) = Raise e →
  upsert_progress clock p w = (Raise e, w).
Proof.
  intros Hc Hv.
  unfold upsert_progress, bind, get_db, db, find_one, lift.
  by rewrite Hc, Hv.
Qed.

Lemma upsert_inserts p w data :
  w_connected w = true →
  model_validate Progress (model_dump p) = Ok data →
  List.find (matches [("user_id", VStr (user_id p));
                      ("video_id", VStr (video_id p))])
    (progress_docs (w_store w)) = None →
  upsert_progress clock p w =
    (Ok {[ "id" := VStr (str_of_oid (db_next_oid (w_store w))) ]},
     World true
       (Database
          (<["progress" :=
               progress_docs (w_store w) ++
                 [inserted_record data (clock (w_ticks w))
                    (clock (S (w_ticks w))) (db_next_oid (w_store w))]]>
             (db_colls (w_store w)))
          (N.succ (db_next_oid (w_store w))))
       (S (S (w_ticks w)))).
Proof.
  intros Hc Hv Hf. destruct w as [conn s t]. simpl in *. subst conn.
  unfold upsert_progress, bind, get_db, db, find_one, lift, now, insert_one, ret.
  simpl. unfold progress_docs in Hf. by rewrite Hf, Hv.
Qed.

Lemma upsert_updates p w data found i :
  w_connected w = true →
  model_validate Progress (model_dump p) = Ok data →
  List.find (matches [("user_id", VStr (user_id p));
                      ("video_id", VStr (video_id p))])
    (progress_docs (w_store w)) = Some found →
  found !! "_id" = Some i →
  upsert_progress clock p w =
    (Ok {[ "id" := VStr (py_str i) ]},
     World true
       (set_collection (w_store w) "progress"
          (update_first [("_id", i)]
             (bson_value <$>
                <["updated_at" := VDatetime (clock (w_ticks w))]> data)
             (progress_docs (w_store w))))
       (S (w_ticks w))).
Proof.
  intros Hc Hv Hf Hi. destruct w as [conn s t]. simpl in *. subst conn.
  assert (dict_is_empty found = false) as Hne.
  { destruct (dict_is_empty found) eqn:He; [|done].
    apply (dict_is_empty_lookup _ "_id") in He. congruence. }
  unfold upsert_progress, bind, get_db, db, find_one, lift, now, update_one,
    getitem, ret.
  simpl. unfold progress_docs in Hf. rewrite Hf, Hv, Hne, Hi. simpl.
  done.
Qed.

(** C5: with no store handle ([db] is [None]) an upsert raises the
    server-side error with status 500, which is no validation error,
    whatever the request holds, and leaves the store and the rest of the
    world as they were. *)
Theorem upsert_without_store_fails_unchanged p w :
  db w = None →
  ∃ e, upsert_progress clock p w = (Raise e, w) ∧
       e = HTTPException 500 "Database not configured" ∧
       (∀ title errs, e ≠ ValidationError title errs) ∧
       w_store (upsert_progress clock p w).2 = w_store w.
Proof.
  intros Hdb. assert (w_connected w = false) as Hc.
  { unfold db in Hdb. by destruct (w_connected w). }
  rewrite (upsert_unconfigured p w Hc). eexists. by repeat split.
Qed.

(** C4: a Progress write whose percent lies outside the interval from
    0 to 100 fails validation with a [ValidationError] holding an error
    located at the percent field, and the upsert raises it without
    touching the store; a write whose percent lies inside the interval,
    its position being absent or not negative, passes validation. *)
Theorem percent_outside_range_is_rejected p w :
  (¬ in_range (percent p) →
     ∃ errs,
       model_validate Progress (model_dump p)
         = Raise (ValidationError "Progress" errs) ∧
       (∃ e, e ∈ errs ∧ err_loc e = [LocField "percent"] ∧
             err_input e = VFloat (percent p)) ∧
       (w_connected w = true →
          upsert_progress clock p w
            = (Raise (ValidationError "Progress" errs), w))) ∧
  (in_range (percent p) → valid_position (last_position_sec p) →
     model_validate Progress (model_dump p) = Ok (model_dump p)).
Proof.
  split.
  - intros Hout.
    destruct (model_dump_lookup p) as (_ & _ & Hpc & _).
    destruct (progress_percent_rejected (model_dump p) _ (percent p) Hpc
                eq_refl Hout) as (errs & Hraise & He).
    exists errs. split; [done|]. split; [done|].
    intros Hc. by apply upsert_invalid.
  - apply progress_dump_valid.
Qed.

Lemma stamped_dump p t :
  bson_value <$> <["updated_at" := VDatetime t]> (model_dump p)
    = <["updated_at" := VDatetime (bson_millis t)]> (model_dump p).
Proof. by rewrite fmap_insert, bson_model_dump. Qed.

Lemma stamped_dump_lookup p t :
  let upd := <["updated_at" := VDatetime t]> (model_dump p) in
  upd !! "user_id" = Some (VStr (user_id p)) ∧
  upd !! "video_id" = Some (VStr (video_id p)) ∧
  upd !! "percent" = Some (VFloat (percent p)) ∧
  upd !! "last_position_sec" = Some (optional_int (last_position_sec p)) ∧
  upd !! "updated_at" = Some (VDatetime t) ∧
  (∀ k, k ∉ ["user_id"; "video_id"; "percent"; "last_position_sec";
             "updated_at"] → upd !! k = None).
Proof.
  destruct (model_dump_lookup p) as (Hu & Hv & Hpc & Hl). cbv zeta.
  split; [by rewrite lookup_insert_ne|].
  split; [by rewrite lookup_insert_ne|].
  split; [by rewrite lookup_insert_ne|].
  split; [by rewrite lookup_insert_ne|].
  split; [by rewrite lookup_insert_eq|].
  intros k Hk. unfold model_dump.
  repeat (rewrite lookup_insert_ne; [|intros <-; apply Hk; set_solver]).
  rewrite lookup_singleton_ne; [done|]. intros <-. apply Hk. set_solver.
Qed.

(** What an upsert does when the pair is already there: the first
    record with the pair is overwritten where it stands. *)
Lemma upsert_existing p w d :
  w_connected w = true → store_ok (w_store w) →
  (∃ data, model_validate Progress (model_dump p) = Ok data) →
  d ∈ progress_docs (w_store w) →
  pair_of d = Some (user_id p, video_id p) →
  ∃ found oid before after,
    progress_docs (w_store w) = before ++ found :: after ∧
    pair_of found = Some (user_id p, video_id p) ∧
    (∀ x, x ∈ before → pair_of x ≠ Some (user_id p, video_id p)) ∧
    found !! "_id" = Some (VObjectId oid) ∧
    upsert_progress clock p w =
      (Ok {[ "id" := VStr (str_of_oid oid) ]},
       World true
         (set_collection (w_store w) "progress"
            (before ++
               (<["updated_at" :=
                    VDatetime (bson_millis (clock (w_ticks w)))]>
                  (model_dump p) ∪ found) :: after))
         (S (w_ticks w))).
Proof.
  intros Hc Hok [data Hv] Hd Hpair.
  pose proof (proj1 (progress_dump_validate p) data Hv) as ->.
  destruct (find_pair_some _ d _ _ Hok Hd Hpair) as (found & Hfind & Hin & Hfp).
  destruct (ok_oid _ Hok found Hin) as (oid & Hoid & _).
  pose proof (proj1 (oid_of_lookup found oid) Hoid) as Hid.
  assert (∀ x, x ∈ progress_docs (w_store w) → is_Some (oid_of x)) as Hids.
  { intros x Hx. destruct (ok_oid _ Hok x Hx) as (o & -> & _). by eexists. }
  destruct (update_first_found _ _ found oid
              (<["updated_at" := VDatetime (bson_millis (clock (w_ticks w)))]>
                 (model_dump p))
              Hids (ok_oid_distinct _ Hok) Hfind Hoid)
    as (before & after & Hsplit & Hupd & _ & Hbefore).
  exists found, oid, before, after.
  split; [done|]. split; [done|]. split.
  { intros x Hx Hxp.
    assert (x ∈ progress_docs (w_store w)) as Hxin.
    { rewrite Hsplit. apply elem_of_app. by left. }
    pose proof (Hbefore x Hx) as Hm.
    rewrite (proj2 (matches_pair_true x _ _ (ok_pair _ Hok x Hxin)) Hxp) in Hm.
    done. }
  split; [done|].
  rewrite (upsert_updates p w (model_dump p) found (VObjectId oid));
    [|done..].
  by rewrite stamped_dump, Hupd.
Qed.

Lemma updated_same_keys p t found :
  pair_of found = Some (user_id p, video_id p) →
  same_keys found
    (<["updated_at" := VDatetime t]> (model_dump p) ∪ found).
Proof.
  intros [Hu Hv]%pair_of_lookup.
  destruct (stamped_dump_lookup p t) as (Hsu & Hsv & _ & _ & _ & Hnone).
  repeat split.
  - apply lookup_union_r. apply Hnone. set_solver.
  - rewrite Hu. by apply lookup_union_Some_l.
  - rewrite Hv. by apply lookup_union_Some_l.
Qed.

Lemma inserted_record_eq p updated created oid :
  inserted_record (model_dump p) updated created oid =
    <["_id" := VObjectId oid]>
      (<["created_at" := VDatetime (bson_millis created)]>
         (<["updated_at" := VDatetime (bson_millis updated)]> (model_dump p))).
Proof.
  unfold inserted_record. by rewrite !fmap_insert, bson_model_dump.
Qed.

Lemma inserted_record_lookup p updated created oid :
  let d := inserted_record (model_dump p) updated created oid in
  d !! "_id" = Some (VObjectId oid) ∧
  d !! "created_at" = Some (VDatetime (bson_millis created)) ∧
  d !! "updated_at" = Some (VDatetime (bson_millis updated)) ∧
  d !! "user_id" = Some (VStr (user_id p)) ∧
  d !! "video_id" = Some (VStr (video_id p)) ∧
  d !! "percent" = Some (VFloat (percent p)) ∧
  d !! "last_position_sec" = Some (optional_int (last_position_sec p)).
Proof.
  cbv zeta. rewrite inserted_record_eq.
  destruct (model_dump_lookup p) as (Hu & Hv & Hpc & Hl).
  repeat split; repeat (rewrite lookup_insert_ne; [|done]);
    first [by rewrite lookup_insert_eq | done].
Qed.

(** One upsert, whatever its outcome, keeps the progress collection
    well formed and with one record per pair. *)
Lemma upsert_step_ok p w :
  store_ok (w_store w) → one_record_per_pair (w_store w) →
  store_ok (w_store (upsert_progress clock p w).2) ∧
  one_record_per_pair (w_store (upsert_progress clock p w).2).
Proof.
  intros Hok Hone.
  destruct (w_connected w) eqn:Hc; [|by rewrite upsert_unconfigured].
  destruct (model_validate Progress (model_dump p)) as [data|e] eqn:Hv;
    [|by rewrite (upsert_invalid p w e)].
  pose proof (proj1 (progress_dump_validate p) data Hv) as ->.
  destruct (List.find
              (matches [("user_id", VStr (user_id p));
                        ("video_id", VStr (video_id p))])
              (progress_docs (w_store w))) as [found|] eqn:Hfind.
  - destruct (find_some_elem _ _ _ Hfind) as [Hin Hm].
    apply matches_pair_true in Hm; [|by apply (ok_pair _ Hok)].
    destruct (upsert_existing p w found Hc Hok (ex_intro _ _ Hv) Hin Hm)
      as (found' & oid & before & after & Hsplit & Hfp & _ & _ & ->).
    simpl.
    assert (Forall2 same_keys (progress_docs (w_store w))
              (before ++
                 (<["updated_at" := VDatetime (bson_millis (clock (w_ticks w)))]>
                    (model_dump p) ∪ found') :: after)) as Hsame.
    { rewrite Hsplit. apply Forall2_app.
      - apply Forall_Forall2_diag, Forall_forall. intros; apply same_keys_refl.
      - constructor; [by apply updated_same_keys|].
        apply Forall_Forall2_diag, Forall_forall. intros; apply same_keys_refl. }
    split; [by apply store_ok_same_keys|by apply one_record_same_keys].
  - rewrite (upsert_inserts p w (model_dump p) Hc Hv Hfind). simpl.
    destruct (inserted_record_lookup p (clock (w_ticks w))
                (clock (S (w_ticks w))) (db_next_oid (w_store w)))
      as (Hid & _ & _ & Hu & Hvid & _). cbv zeta in *.
    split.
    + apply store_ok_insert; [done|by apply oid_of_lookup|].
      exists (user_id p, video_id p). by apply pair_of_lookup.
    + apply (one_record_insert _ _ (user_id p) (video_id p)); [done..|].
      by apply pair_of_lookup.
Qed.

Lemma upsert_all_ok ps w :
  store_ok (w_store w) → one_record_per_pair (w_store w) →
  store_ok (w_store (upsert_all clock ps w)) ∧
  one_record_per_pair (w_store (upsert_all clock ps w)).
Proof.
  revert w. induction ps as [|p ps IH]; intros w Hok Hone; [done|].
  simpl. destruct (upsert_step_ok p w Hok Hone) as [Hok' Hone'].
  by apply IH.
Qed.


(** What an upsert does when no record has the pair: a record goes
    last in the collection, stamped from two clock readings. *)
Lemma upsert_new p w :
  w_connected w = true → store_ok (w_store w) →
  (∃ data, model_validate Progress (model_dump p) = Ok data) →
  (∀ d, d ∈ progress_docs (w_store w) →
        pair_of d ≠ Some (user_id p, video_id p)) →
  upsert_progress clock p w =
    (Ok {[ "id" := VStr (str_of_oid (db_next_oid (w_store w))) ]},
     World true
       (Database
          (<["progress" :=
               progress_docs (w_store w) ++
                 [inserted_record (model_dump p) (clock (w_ticks w))
                    (clock (S (w_ticks w))) (db_next_oid (w_store w))]]>
             (db_colls (w_store w)))
          (N.succ (db_next_oid (w_store w))))
       (S (S (w_ticks w)))).
Proof.
  intros Hc Hok [data Hv] Hnew.
  pose proof (proj1 (progress_dump_validate p) data Hv) as ->.
  apply upsert_inserts; [done..|].
  destruct (List.find _ (progress_docs (w_store w))) as [found|] eqn:Hf; [|done].
  apply find_some_elem in Hf as [Hin Hm].
  apply matches_pair_true in Hm; [|by apply (ok_pair _ Hok)].
  by destruct (Hnew found Hin).
Qed.

(** After a valid upsert on a connected, well-formed store there is a
    record with the pair that holds the request's fields. *)
Lemma upsert_stores p w :
  w_connected w = true → store_ok (w_store w) →
  (∃ data, model_validate Progress (model_dump p) = Ok data) →
  ∃ d, d ∈ progress_docs (w_store (upsert_progress clock p w).2) ∧
       pair_of d = Some (user_id p, video_id p) ∧
       d !! "percent" = Some (VFloat (percent p)) ∧
       d !! "last_position_sec" = Some (optional_int (last_position_sec p)).
Proof.
  intros Hc Hok Hv.
  destruct (List.find
              (matches [("user_id", VStr (user_id p));
                        ("video_id", VStr (video_id p))])
              (progress_docs (w_store w))) as [found|] eqn:Hfind.
  - destruct (find_some_elem _ _ _ Hfind) as [Hin Hm].
    apply matches_pair_true in Hm; [|by apply (ok_pair _ Hok)].
    destruct (upsert_existing p w found Hc Hok Hv Hin Hm)
      as (found' & oid & before & after & _ & _ & _ & _ & ->).
    simpl. rewrite progress_docs_set.
    destruct (stamped_dump_lookup p (bson_millis (clock (w_ticks w))))
      as (Hu & Hvid & Hpc & Hl & _). cbv zeta in *.
    eexists. split; [apply elem_of_app; right; apply list_elem_of_here|].
    split; [apply pair_of_lookup; split; by apply lookup_union_Some_l|].
    split; by apply lookup_union_Some_l.
  - rewrite upsert_new; [|done..|].
    + simpl. unfold progress_docs at 1, collection. simpl.
      rewrite lookup_insert_eq. simpl.
      destruct (inserted_record_lookup p (clock (w_ticks w))
                  (clock (S (w_ticks w))) (db_next_oid (w_store w)))
        as (_ & _ & _ & Hu & Hvid & Hpc & Hl). cbv zeta in *.
      eexists. split; [apply elem_of_app; right; apply list_elem_of_here|].
      split; [by apply pair_of_lookup|done].
    + intros d Hd Hp.
      pose proof (find_none_all _ _ Hfind d Hd) as Hm.
      rewrite (proj2 (matches_pair_true d _ _ (ok_pair _ Hok d Hd)) Hp) in Hm.
      done.
Qed.

(** C3: run one after the other, upserts keep the progress collection
    at one record per (user_id, video_id) pair (and well formed); an
    upsert for a pair that is already there leaves the number of records
    as it was. *)
Theorem sequential_upserts_keep_one_record_per_pair ps w :
  store_ok (w_store w) → one_record_per_pair (w_store w) →
  store_ok (w_store (upsert_all clock ps w)) ∧
  one_record_per_pair (w_store (upsert_all clock ps w)) ∧
  (∀ p d, d ∈ progress_docs (w_store w) →
          pair_of d = Some (user_id p, video_id p) →
          length (progress_docs (w_store (upsert_progress clock p w).2))
            = length (progress_docs (w_store w))).
Proof.
  intros Hok Hone.
  destruct (upsert_all_ok ps w Hok Hone) as [Hok' Hone'].
  split; [done|]. split; [done|].
  intros p d Hd Hp.
  destruct (w_connected w) eqn:Hc; [|by rewrite upsert_unconfigured].
  destruct (model_validate Progress (model_dump p)) as [data|e] eqn:Hv;
    [|by rewrite (upsert_invalid p w e)].
  destruct (upsert_existing p w d Hc Hok (ex_intro _ _ Hv) Hd Hp)
    as (found & oid & before & after & Hsplit & _ & _ & _ & ->).
  simpl. rewrite progress_docs_set, Hsplit. by rewrite !length_app.
Qed.

Lemma create_progress_dump_valid p :
  model_validate CreateProgress (model_dump p) = Ok (model_dump p).
Proof.
  destruct (model_dump_lookup p) as (Hu & Hv & Hpc & Hl).
  unfold model_validate, CreateProgress. simpl m_fields.
  rewrite !validate_fields_cons. unfold validate_field. simpl f_name.
  rewrite Hu, Hv, Hpc, Hl. simpl.
  destruct (last_position_sec p) as [z|] eqn:Hz; simpl;
    unfold model_dump; rewrite Hz; done.
Qed.

(** C10: a Progress write whose last_position_sec is null passes the
    validation of the request model and of the Progress schema with the
    field still null (the lower bound is checked on integers only), and
    the record the upsert stores holds null there. *)
Theorem null_position_is_accepted_and_stored p w :
  last_position_sec p = None → in_range (percent p) →
  model_dump p !! "last_position_sec" = Some VNone ∧
  model_validate CreateProgress (model_dump p) = Ok (model_dump p) ∧
  model_validate Progress (model_dump p) = Ok (model_dump p) ∧
  (∀ input rec,
     input !! "last_position_sec" = Some VNone →
     model_validate Progress input = Ok rec →
     rec !! "last_position_sec" = Some VNone) ∧
  (w_connected w = true → store_ok (w_store w) →
     ∃ d, d ∈ progress_docs (w_store (upsert_progress clock p w).2) ∧
          pair_of d = Some (user_id p, video_id p) ∧
          d !! "last_position_sec" = Some VNone).
Proof.
  intros Hnone Hp.
  assert (valid_position (last_position_sec p)) as Hpos by (by rewrite Hnone).
  pose proof (progress_dump_valid p Hp Hpos) as Hv.
  split.
  { destruct (model_dump_lookup p) as (_ & _ & _ & ->). by rewrite Hnone. }
  split; [apply create_progress_dump_valid|]. split; [done|]. split.
  - intros input rec Hin Hok%model_validate_ok.
    pose proof (validate_fields_lookup (m_fields Progress) input
                  (MkField "last_position_sec" (TOptional TInt)
                     (Some (VInt 0)) (Some 0%Q) None) VNone) as Hl.
    rewrite Hok in Hl. apply Hl.
    + distinct_names.
    + field_declared.
    + unfold validate_field. simpl. by rewrite Hin.
  - intros Hc Hok.
    destruct (upsert_stores p w Hc Hok (ex_intro _ _ Hv))
      as (d & Hd & Hpair & _ & Hl).
    exists d. rewrite Hnone in Hl. done.
Qed.

Lemma serialize_doc_with_id (doc : dict) i :
  doc !! "_id" = Some i →
  serialize_doc doc = <["id" := VStr (py_str i)]> (delete "_id" doc).
Proof.
  intros Hi. unfold serialize_doc.
  destruct (dict_is_empty doc) eqn:He.
  - apply (dict_is_empty_lookup _ "_id") in He. congruence.
  - by rewrite Hi.
Qed.

Lemma serialize_doc_without_id (doc : dict) :
  doc !! "_id" = None → serialize_doc doc = doc.
Proof.
  intros Hi. unfold serialize_doc.
  destruct (dict_is_empty doc); [done|]. by rewrite Hi.
Qed.

Lemma list_handler_run (get : M (list dict)) w :
  bind get (λ docs, ret (map serialize_doc docs)) w =
    match get w with
    | (Ok docs, w') => (Ok (map serialize_doc docs), w')
    | (Raise e, w') => (Raise e, w')
    end.
Proof. unfold bind, ret. by destruct (get w) as [[docs|e] w']. Qed.

(** C9: a document that has the internal identifier field is
    serialized with a string field id holding [str] of that identifier
    (the hex form of an [ObjectId]) and without the internal field, its
    other fields untouched; a document without the internal field is
    returned as it is, so no serialized document has the internal
    field; and the three list handlers return exactly the serialized
    documents that [get_documents] gave them. *)
Theorem serialized_items_carry_id_not_internal_id
    (get_documents : string → query → Z → M (list dict)) :
  (∀ (doc : dict) i,
     doc !! "_id" = Some i →
     serialize_doc doc !! "id" = Some (VStr (py_str i)) ∧
     serialize_doc doc !! "_id" = None ∧
     (∀ k, k ≠ "id" → k ≠ "_id" → serialize_doc doc !! k = doc !! k)) ∧
  (∀ (doc : dict) oid,
     oid_of doc = Some oid →
     serialize_doc doc !! "id" = Some (VStr (str_of_oid oid))) ∧
  (∀ doc : dict, doc !! "_id" = None → serialize_doc doc = doc) ∧
  (∀ doc : dict, serialize_doc doc !! "_id" = None) ∧
  (∀ limit w,
     list_videos get_documents limit w =
       match get_documents "video" [] limit w with
       | (Ok docs, w') => (Ok (map serialize_doc docs), w')
       | (Raise e, w') => (Raise e, w')
       end) ∧
  (∀ user limit w,
     get_user_progress get_documents user limit w =
       match get_documents "progress" [("user_id", VStr user)] limit w with
       | (Ok docs, w') => (Ok (map serialize_doc docs), w')
       | (Raise e, w') => (Raise e, w')
       end) ∧
  (∀ limit w,
     list_posts get_documents limit w =
       match get_documents "forumpost" [] limit w with
       | (Ok docs, w') => (Ok (map serialize_doc docs), w')
       | (Raise e, w') => (Raise e, w')
       end).
Proof.
  assert (∀ (doc : dict) i,
     doc !! "_id" = Some i →
     serialize_doc doc !! "id" = Some (VStr (py_str i)) ∧
     serialize_doc doc !! "_id" = None ∧
     (∀ k, k ≠ "id" → k ≠ "_id" → serialize_doc doc !! k = doc !! k)) as Hser.
  { intros doc i Hi. rewrite (serialize_doc_with_id doc i Hi).
    split; [by rewrite lookup_insert_eq|]. split.
    - rewrite lookup_insert_ne; [|done]. by rewrite lookup_delete_eq.
    - intros k Hk1 Hk2. rewrite lookup_insert_ne; [|done].
      by rewrite lookup_delete_ne. }
  split; [done|]. split.
  { intros doc oid Hoid%oid_of_lookup. by destruct (Hser doc _ Hoid) as [-> _]. }
  split; [apply serialize_doc_without_id|]. split.
  { intros doc. destruct (doc !! "_id") as [i|] eqn:Hi.
    - by destruct (Hser doc i Hi) as (_ & -> & _).
    - by rewrite serialize_doc_without_id. }
  repeat split; intros; apply list_handler_run.
Qed.

(** The first upsert for a pair, in general: the new record goes last,
    gets the next identifier, which is returned, and carries the
    request's fields; updated_at is the first clock reading and
    created_at the second, both in whole milliseconds, so the two stamps
    agree exactly when the clock stays within one millisecond between
    the readings. *)
Lemma upsert_of_new_pair_inserts p w :
  w_connected w = true → store_ok (w_store w) →
  in_range (percent p) → valid_position (last_position_sec p) →
  (∀ d, d ∈ progress_docs (w_store w) →
        pair_of d ≠ Some (user_id p, video_id p)) →
  ∃ d w',
    upsert_progress clock p w
      = (Ok {[ "id" := VStr (str_of_oid (db_next_oid (w_store w))) ]}, w') ∧
    progress_docs (w_store w') = progress_docs (w_store w) ++ [d] ∧
    d !! "_id" = Some (VObjectId (db_next_oid (w_store w))) ∧
    pair_of d = Some (user_id p, video_id p) ∧
    d !! "percent" = Some (VFloat (percent p)) ∧
    d !! "last_position_sec" = Some (optional_int (last_position_sec p)) ∧
    d !! "updated_at" = Some (VDatetime (bson_millis (clock (w_ticks w)))) ∧
    d !! "created_at"
      = Some (VDatetime (bson_millis (clock (S (w_ticks w))))) ∧
    (d !! "created_at" = d !! "updated_at" ↔
     bson_millis (clock (S (w_ticks w))) = bson_millis (clock (w_ticks w))).
Proof.
  intros Hc Hok Hp Hpos Hnew.
  pose proof (upsert_new p w Hc Hok
                (ex_intro _ _ (progress_dump_valid p Hp Hpos)) Hnew) as Hrun.
  destruct (inserted_record_lookup p (clock (w_ticks w))
              (clock (S (w_ticks w))) (db_next_oid (w_store w)))
    as (Hid & Hcr & Hup & Hu & Hv & Hpc & Hl). cbv zeta in *.
  eexists _, _. split; [exact Hrun|]. simpl.
  split.
  { unfold progress_docs at 1, collection. simpl. by rewrite lookup_insert_eq. }
  split; [done|]. split; [by apply pair_of_lookup|].
  split; [done|]. split; [done|]. split; [done|]. split; [done|].
  rewrite Hcr, Hup. split; [by intros [= ->]|by intros ->].
Qed.

End HandlerFacts.

(** ** The model run on concrete requests *)

Lemma empty_store_ok : store_ok empty_database ∧ one_record_per_pair empty_database.
Proof.
  split; [split|].
  - by intros d ?%elem_of_nil.
  - constructor.
  - by intros d ?%elem_of_nil.
  - by intros i j di dj ?.
Qed.

Lemma in_range_50 : in_range (FFin 50).
Proof. by split. Qed.

Lemma in_range_75 : in_range (FFin 75).
Proof. by split. Qed.

Lemma in_range_100 : in_range (FFin 100).
Proof. by split. Qed.

Lemma not_in_range_150 : ¬ in_range (FFin 150).
Proof. by intros [_ H]. Qed.

(** C1: on a fresh store, with a clock that moves on by a microsecond
    between its two readings and crosses a millisecond, the first upsert
    returns the new identifier and stores one record whose created_at is
    later than its updated_at. *)
Theorem first_upsert_stamps_from_two_clock_readings :
  ∃ d w',
    upsert_progress (lib := sample_lib) sample_clock first_request fresh_world
      = (Ok {[ "id" := VStr "000000000000000000000000" ]}, w') ∧
    progress_docs (w_store w') = [d] ∧
    d !! "_id" = Some (VObjectId 0) ∧
    d !! "updated_at" = Some (VDatetime 1700000000000000) ∧
    d !! "created_at" = Some (VDatetime 1700000000001000) ∧
    d !! "created_at" ≠ d !! "updated_at".
Proof.
  pose proof (upsert_new (lib := sample_lib) sample_clock first_request
                fresh_world eq_refl (proj1 empty_store_ok)
                (ex_intro _ _ (progress_dump_valid first_request in_range_50
                                 ltac:(simpl; lia)))) as Hrun.
  destruct (inserted_record_lookup first_request (sample_clock 0)
              (sample_clock 1) 0) as (Hid & Hc & Hu & _). cbv zeta in *.
  eexists _, _. split.
  - rewrite Hrun; [done|]. by intros d ?%elem_of_nil.
  - simpl. split; [done|]. split; [exact Hid|]. split; [exact Hu|].
    split; [exact Hc|]. rewrite Hc, Hu. done.
Qed.


(** Three requests on a fresh store, two of them for one pair, leave
    two records and one record per pair. *)
Lemma sequential_upserts_witness :
  let w := upsert_all (lib := sample_lib) sample_clock
             [first_request; repeat_request; other_request] fresh_world in
  store_ok (w_store w) ∧ one_record_per_pair (w_store w) ∧
  length (progress_docs (w_store w)) = 2%nat.
Proof.
  destruct (sequential_upserts_keep_one_record_per_pair (lib := sample_lib)
              sample_clock [first_request; repeat_request; other_request]
              fresh_world (proj1 empty_store_ok) (proj2 empty_store_ok))
    as (Hok & Hone & _).
  split; [exact Hok|]. split; [exact Hone|]. vm_compute. reflexivity.
Defined.

(** percent=150 is rejected with an error at percent and the upsert
    raises it; percent=100 passes. *)
Lemma percent_range_witness :
  (∃ errs,
     model_validate (lib := sample_lib) Progress (model_dump over_request)
       = Raise (ValidationError "Progress" errs) ∧
     (∃ e, e ∈ errs ∧ err_loc e = [LocField "percent"]) ∧
     upsert_progress (lib := sample_lib) sample_clock over_request fresh_world
       = (Raise (ValidationError "Progress" errs), fresh_world)) ∧
  model_validate (lib := sample_lib) Progress (model_dump other_request)
    = Ok (model_dump other_request).
Proof.
  split.
  - destruct (proj1 (percent_outside_range_is_rejected (lib := sample_lib)
                       sample_clock over_request fresh_world)
                not_in_range_150)
      as (errs & Hraise & (e & He & Hloc & _) & Hrun).
    exists errs. split; [exact Hraise|]. split; [by exists e|].
    by apply Hrun.
  - apply (proj2 (percent_outside_range_is_rejected (lib := sample_lib)
                    sample_clock other_request fresh_world)).
    + exact in_range_100.
    + simpl. lia.
Defined.

(** A process without a store handle answers every upsert with the
    status-500 error. *)
Lemma upsert_without_store_witness :
  db unconfigured_world = None ∧
  upsert_progress (lib := sample_lib) sample_clock first_request
      unconfigured_world
    = (Raise (HTTPException 500 "Database not configured"),
       unconfigured_world).
Proof.
  split; [reflexivity|].
  destruct (upsert_without_store_fails_unchanged (lib := sample_lib)
              sample_clock first_request unconfigured_world eq_refl)
    as (e & Hrun & -> & _).
  exact Hrun.
Defined.

(** A Progress input with percent=150 and last_position_sec=-5 has both
    fields among its errors. *)
Lemma validation_reports_both_fields_witness :
  ∃ errs,
    model_validate (lib := sample_lib) Progress bad_progress_input
      = Raise (ValidationError "Progress" errs) ∧
    (∃ e, e ∈ errs ∧ error_field e = Some "percent") ∧
    (∃ e, e ∈ errs ∧ error_field e = Some "last_position_sec") ∧
    (∀ e, e ∈ errs →
       error_field e = Some "percent" ∨
       error_field e = Some "last_position_sec").
Proof.
  destruct (validation_reports_every_violating_field (lib := sample_lib)
              Progress bad_progress_input)
    as [(rec & Hok & _)|(errs & Hraise & _ & Hiff & Honly)].
  - distinct_names.
  - vm_compute in Hok. discriminate Hok.
  - exists errs. split; [exact Hraise|].
    split; [|split].
    + apply (Hiff (MkField "percent" TFloat (Some (VInt 0)) (Some 0%Q)
                     (Some 100%Q))); [field_declared|].
      eexists. reflexivity.
    + apply (Hiff (MkField "last_position_sec" (TOptional TInt)
                     (Some (VInt 0)) (Some 0%Q) None)); [field_declared|].
      eexists. reflexivity.
    + intros e He. destruct (Honly e He) as (f & Hf & Hef).
      assert (violates (H := sample_lib) f bad_progress_input) as Hviol.
      { apply Hiff; [done|]. by exists e. }
      simpl in Hf. rewrite Hef.
      repeat (apply elem_of_cons in Hf as [->|Hf]);
        [destruct Hviol as [? [=]]|destruct Hviol as [? [=]]
        |by left|by right|by apply elem_of_nil in Hf].
Defined.

(** A Video body with a title and a url, a Progress body with the pair
    and a User body with name and e-mail validate, and get every
    default. *)
Lemma absent_fields_witness :
  (∃ rec, model_validate (lib := sample_lib) Video video_body = Ok rec ∧
          rec !! "level" = Some (VStr "beginner") ∧
          rec !! "topics" = Some (VList []) ∧
          rec !! "requires_plan" = Some (VStr "BASIC")) ∧
  (∃ rec, model_validate (lib := sample_lib) Progress progress_body = Ok rec ∧
          rec !! "percent" = Some (VInt 0) ∧
          rec !! "last_position_sec" = Some (VInt 0)) ∧
  (∃ rec, model_validate (lib := sample_lib) User user_body = Ok rec ∧
          rec !! "plan" = Some (VStr "BASIC") ∧
          rec !! "is_active" = Some (VBool true)).
Proof.
  split; [|split].
  - destruct (model_validate (lib := sample_lib) Video video_body)
      as [rec|e] eqn:Hv; [|vm_compute in Hv; discriminate Hv].
    destruct (proj1 (absent_fields_take_declared_defaults (lib := sample_lib)
                       video_body rec) Hv) as (H1 & H2 & H3).
    exists rec. split; [reflexivity|].
    split; [exact (H1 eq_refl)|]. split; [exact (H2 eq_refl)|exact (H3 eq_refl)].
  - destruct (model_validate (lib := sample_lib) Progress progress_body)
      as [rec|e] eqn:Hv; [|vm_compute in Hv; discriminate Hv].
    destruct (proj1 (proj2 (absent_fields_take_declared_defaults
                              (lib := sample_lib) progress_body rec)) Hv)
      as (H1 & H2).
    exists rec. split; [reflexivity|].
    split; [exact (H1 eq_refl)|exact (H2 eq_refl)].
  - destruct (model_validate (lib := sample_lib) User user_body)
      as [rec|e] eqn:Hv; [|vm_compute in Hv; discriminate Hv].
    destruct (proj2 (proj2 (absent_fields_take_declared_defaults
                              (lib := sample_lib) user_body rec)) Hv)
      as (H1 & H2).
    exists rec. split; [reflexivity|].
    split; [exact (H1 eq_refl)|exact (H2 eq_refl)].
Defined.

(** A Video body and the same body with an extra foo validate to one
    record, which has no foo, and POST /api/videos answers both
    alike. *)
Lemma undeclared_fields_witness :
  ∃ rec,
    model_validate (lib := sample_lib) CreateVideo video_body = Ok rec ∧
    model_validate (lib := sample_lib) CreateVideo video_body_foo = Ok rec ∧
    rec !! "foo" = None ∧
    post_video (lib := sample_lib) sample_create_document video_body_foo
        fresh_world
      = post_video (lib := sample_lib) sample_create_document video_body
          fresh_world.
Proof.
  destruct (model_validate (lib := sample_lib) CreateVideo video_body)
    as [rec|e] eqn:Hv; [|vm_compute in Hv; discriminate Hv].
  destruct (undeclared_fields_are_not_observable (lib := sample_lib)
              sample_create_document CreateVideo video_body video_body_foo rec)
    as (Hfoo & Hdeclared & Hpost).
  - intros k Hk. unfold video_body_foo. symmetry. apply lookup_insert_ne.
    intros <-. revert Hk. apply (bool_decide_unpack _). vm_compute. exact I.
  - exact Hv.
  - exists rec. split; [reflexivity|]. split; [exact Hfoo|]. split.
    + apply Hdeclared. apply (bool_decide_unpack _). vm_compute. exact I.
    + exact (Hpost eq_refl fresh_world).
Defined.

(** A stored video is serialized with its identifier under id, in
    hex, and listed that way. *)
Lemma serialized_items_witness :
  serialize_doc (lib := sample_lib) stored_video !! "id"
    = Some (VStr "0000000000000000000000ff") ∧
  serialize_doc (lib := sample_lib) stored_video !! "_id" = None ∧
  serialize_doc (lib := sample_lib) stored_video !! "title"
    = Some (VStr "Siu Nim Tao") ∧
  serialize_doc (lib := sample_lib) video_body = video_body.
Proof.
  destruct (serialized_items_carry_id_not_internal_id (lib := sample_lib)
              sample_get_documents) as (Hser & _ & Hnoid & _).
  destruct (Hser stored_video (VObjectId 255) eq_refl) as (Hid & Hinternal & Hrest).
  split; [exact Hid|]. split; [exact Hinternal|]. split.
  - rewrite Hrest; [reflexivity|done|done].
  - apply Hnoid. reflexivity.
Defined.

(** A request with a null position is accepted, and the record stored
    for it on a fresh store holds null. *)
Lemma null_position_witness :
  model_validate (lib := sample_lib) Progress (model_dump repeat_request)
    = Ok (model_dump repeat_request) ∧
  ∃ d, d ∈ progress_docs
             (w_store (upsert_progress (lib := sample_lib) sample_clock
                         repeat_request fresh_world).2) ∧
       d !! "last_position_sec" = Some VNone.
Proof.
  destruct (null_position_is_accepted_and_stored (lib := sample_lib)
              sample_clock repeat_request fresh_world eq_refl in_range_75)
    as (_ & _ & Hv & _ & Hstored).
  split; [exact Hv|].
  destruct (Hstored eq_refl (proj1 empty_store_ok)) as (d & Hd & _ & Hnull).
  by exists d.
Defined.

(** * Further properties *)

(** ** [serialize_doc] *)

Section SerializeFacts.
Context {lib : PyLib}.

(** X1: Serializing twice is serializing once: a serialized document has no
    internal identifier left to replace. *)
Theorem serialize_doc_idempotent (doc : dict) :
  serialize_doc (serialize_doc doc) = serialize_doc doc.
Proof.
  apply serialize_doc_without_id.
  destruct (doc !! "_id") as [i|] eqn:Hi.
  - rewrite (serialize_doc_with_id doc i Hi).
    rewrite lookup_insert_ne; [|done]. apply lookup_delete_eq.
  - by rewrite serialize_doc_without_id.
Qed.

(** X2: The keys of a serialized document with an internal identifier are
    the other keys of the document and id; a field id the document
    already had is replaced by the identifier's text. *)
Theorem serialize_doc_keys (doc : dict) i :
  doc !! "_id" = Some i →
  dom (serialize_doc doc) = {["id"]} ∪ (dom doc ∖ {["_id"]}) ∧
  (∀ old, doc !! "id" = Some old →
          serialize_doc doc !! "id" = Some (VStr (py_str i)) ∧
          size (serialize_doc doc) = Nat.pred (size doc)) ∧
  (doc !! "id" = None → size (serialize_doc doc) = size doc).
Proof.
  intros Hi. rewrite (serialize_doc_with_id doc i Hi).
  assert (size (delete "_id" doc) = Nat.pred (size doc)) as Hdel.
  { apply map_size_delete_Some. by eexists. }
  split; [by rewrite dom_insert_L, dom_delete_L|]. split.
  - intros old Hold. split; [by rewrite lookup_insert_eq|].
    rewrite map_size_insert_Some; [done|].
    rewrite lookup_delete_ne; [|done]. by eexists.
  - intros Hnone. rewrite map_size_insert_None.
    + rewrite Hdel. assert (size doc ≠ 0%nat); [|lia].
      intros Hz%map_size_empty_iff. subst doc. by rewrite lookup_empty in Hi.
    + by rewrite lookup_delete_ne.
Qed.

End SerializeFacts.

(** ** Validation *)

Section ValidationExtras.
Context {lib : PyLib}.

Lemma check_bounds_within ge le x :
  check_bounds ge le x = None ↔ within_bounds ge le x.
Proof.
  unfold check_bounds, within_bounds.
  destruct le as [b|], ge as [a|];
    repeat match goal with
           | |- context [if ?c then _ else _] => destruct c eqn:?
           end;
    (split;
     [ intros Hnone; try discriminate Hnone;
       split; intros ? [= <-]; done
     | intros [Hge Hle]; try done;
       try (specialize (Hge _ eq_refl); congruence);
       try (specialize (Hle _ eq_refl); congruence) ]).
Qed.

(** The items of a list when every one of them validates. *)
Lemma validate_list_conforms item (l : list value) ge le v' :
  (∀ x x', x ∈ l → validate_type item None None x = VOk x' →
           conforms item None None x') →
  validate_type (TList item) ge le (VList l) = VOk v' →
  conforms (TList item) ge le v'.
Proof.
  simpl. intros Hitems.
  generalize 0%nat as n. intros n.
  destruct ((fix items (i : nat) (l0 : list value) {struct l0} :
               list line_error * list value :=
               match l0 with
               | [] => ([], [])
               | x :: rest =>
                   let '(errs, vs) := items (S i) rest in
                   match validate_type item None None x with
                   | VOk x' => (errs, x' :: vs)
                   | VErr es =>
                       (map (prefix_loc (LocIndex i)) es ++ errs, vs)
                   end
               end) n l) as [errs vs] eqn:Hrun.
  destruct errs as [|e errs]; [|done]. intros [= <-].
  exists vs. split; [done|].
  revert n vs Hrun. induction l as [|x rest IH]; intros n vs Hrun.
  - injection Hrun as <-. constructor.
  - simpl in Hrun.
    destruct ((fix items (i : nat) (l0 : list value) {struct l0} :
               list line_error * list value := _) (S n) rest)
      as [errs' vs'] eqn:Hrest.
    destruct (validate_type item None None x) as [x'|es] eqn:Hx.
    + injection Hrun as -> <-. constructor.
      * apply (Hitems x x'); [apply list_elem_of_here|done].
      * apply (IH (λ y y' Hy, Hitems y y' (list_elem_of_further _ _ _ Hy))
                 (S n) vs' Hrest).
    + injection Hrun as Hnil _.
      apply app_eq_nil in Hnil as [Hes _]. apply fmap_nil_inv in Hes.
      by apply validate_type_errs_nonempty in Hx.
Qed.

Lemma validate_type_conforms t ge le v v' :
  validate_type t ge le v = VOk v' → conforms t ge le v'.
Proof.
  revert ge le v v'.
  induction t as [| | | | | |cs|item IH|inner IH]; intros ge le v v'.
  - simpl. destruct v; try done. intros [= <-]. by eexists.
  - simpl. destruct (lax_int v) as [e|z]; [done|].
    destruct (check_bounds ge le (float_of_int z)) eqn:Hb; [done|].
    intros [= <-]. exists z. split; [done|]. by apply check_bounds_within.
  - simpl. destruct (lax_float v) as [e|f]; [done|].
    destruct (check_bounds ge le f) eqn:Hb; [done|].
    intros [= <-]. exists f. split; [done|]. by apply check_bounds_within.
  - simpl. destruct (lax_bool v) as [e|b]; [done|]. intros [= <-]. by eexists.
  - simpl. destruct v; try done. destruct (validate_email s); [|done].
    intros [= <-]. by eexists.
  - simpl. destruct (validate_datetime v); [|done]. intros [= <-]. by eexists.
  - simpl. destruct v; try done. case_bool_decide; [|done].
    intros [= <-]. by eexists.
  - destruct v; try done.
    apply validate_list_conforms. intros x x' _. apply IH.
  - simpl. destruct v; try (intros H; right; by apply (IH _ _ _ _ H)).
    intros [= <-]. by left.
Qed.

(** The errors and values the items of a list give, items counted
    from [n]. *)
Local Abbreviation validate_items item :=
  (fix items (i : nat) (l0 : list value) {struct l0} :
     list line_error * list value :=
     match l0 with
     | [] => ([], [])
     | x :: rest =>
         let '(errs, vs) := items (S i) rest in
         match validate_type item None None x with
         | VOk x' => (errs, x' :: vs)
         | VErr es => (map (prefix_loc (LocIndex i)) es ++ errs, vs)
         end
     end).

Lemma validate_items_errors item l n e :
  e ∈ (validate_items item n l).1 ↔
  ∃ i x es e0, l !! i = Some x ∧ validate_type item None None x = VErr es ∧
               e0 ∈ es ∧ e = prefix_loc (LocIndex (n + i)) e0.
Proof.
  revert n. induction l as [|x rest IH]; intros n.
  - simpl. split; [by intros ?%elem_of_nil|]. by intros (i & y & ? & ? & ? & _).
  - simpl. specialize (IH (S n)).
    destruct (validate_items item (S n) rest) as [errs vs]. simpl in IH.
    destruct (validate_type item None None x) as [x'|es] eqn:Hx; simpl.
    + rewrite IH. split.
      * intros (i & y & es & e0 & Hi & Hy & He0 & ->).
        exists (S i), y, es, e0. repeat split; try done.
        by replace (n + S i)%nat with (S n + i)%nat by lia.
      * intros ([|i] & y & es & e0 & Hi & Hy & He0 & ->).
        { simpl in Hi. injection Hi as ->. congruence. }
        exists i, y, es, e0. repeat split; try done.
        by replace (n + S i)%nat with (S n + i)%nat by lia.
    + rewrite elem_of_app, IH. split.
      * intros [He|(i & y & es' & e0 & Hi & Hy & He0 & ->)].
        -- apply list_elem_of_fmap in He as (e0 & -> & He0).
           exists 0%nat, x, es, e0. repeat split; try done.
           by rewrite Nat.add_0_r.
        -- exists (S i), y, es', e0. repeat split; try done.
           by replace (n + S i)%nat with (S n + i)%nat by lia.
      * intros ([|i] & y & es' & e0 & Hi & Hy & He0 & ->).
        -- left. simpl in Hi. injection Hi as ->.
           rewrite Hx in Hy. injection Hy as ->.
           rewrite Nat.add_0_r. by apply list_elem_of_fmap_2.
        -- right. exists i, y, es', e0. repeat split; try done.
           by replace (n + S i)%nat with (S n + i)%nat by lia.
Qed.

Lemma validate_list_run item ge le l :
  validate_type (TList item) ge le (VList l) =
    match validate_items item 0%nat l with
    | ([], vs) => VOk (VList vs)
    | (errs, _) => VErr errs
    end.
Proof.
  simpl. destruct (validate_items item 0%nat l) as [errs vs]. done.
Qed.

Lemma validate_list_errors item ge le l es e :
  validate_type (TList item) ge le (VList l) = VErr es →
  (e ∈ es ↔
   ∃ i x es0 e0, l !! i = Some x ∧
                 validate_type item None None x = VErr es0 ∧
                 e0 ∈ es0 ∧ e = prefix_loc (LocIndex i) e0).
Proof.
  rewrite validate_list_run.
  pose proof (validate_items_errors item l 0 e) as Herr.
  destruct (validate_items item 0%nat l) as [[|e1 errs] vs]; [done|].
  intros [= <-]. exact Herr.
Qed.

Lemma validate_list_fails item ge le l i x es0 :
  l !! i = Some x → validate_type item None None x = VErr es0 →
  ∃ es, validate_type (TList item) ge le (VList l) = VErr es.
Proof.
  intros Hi Hx. rewrite validate_list_run.
  destruct es0 as [|e0 es0]; [by apply validate_type_errs_nonempty in Hx|].
  pose proof (proj2 (validate_items_errors item l 0
                       (prefix_loc (LocIndex i) e0))) as Herr.
  destruct (validate_items item 0%nat l) as [[|e1 errs] vs].
  - exfalso. eapply elem_of_nil. apply Herr.
    exists i, x, (e0 :: es0), e0. repeat split; try done. apply list_elem_of_here.
  - by eexists.
Qed.

Lemma validate_type_never_missing t ge le v es e :
  validate_type t ge le v = VErr es → e ∈ es → err_type e ≠ missing.
Proof.
  revert ge le v es e.
  induction t as [| | | | | |cs|item IH|inner IH]; intros ge le v es e.
  - simpl. destruct v; unfold fail; intros [= <-] ->%list_elem_of_singleton; done.
  - simpl. destruct (lax_int v) as [e'|z] eqn:Hl.
    + unfold fail. intros [= <-] ->%list_elem_of_singleton. simpl.
      unfold lax_int in Hl. intros ->.
      destruct v as [| | |[]| | | | |]; simpl in Hl; try done;
        repeat case_match; done.
    + destruct (check_bounds ge le (float_of_int z)) as [e'|] eqn:Hb; [|done].
      unfold fail. intros [= <-] ->%list_elem_of_singleton. simpl. intros ->.
      unfold check_bounds in Hb. repeat case_match; done.
  - simpl. destruct (lax_float v) as [e'|f] eqn:Hl.
    + unfold fail. intros [= <-] ->%list_elem_of_singleton. simpl.
      unfold lax_float in Hl. intros ->. repeat case_match; done.
    + destruct (check_bounds ge le f) as [e'|] eqn:Hb; [|done].
      unfold fail. intros [= <-] ->%list_elem_of_singleton. simpl. intros ->.
      unfold check_bounds in Hb. repeat case_match; done.
  - simpl. destruct (lax_bool v) as [e'|b] eqn:Hl; [|done].
    unfold fail. intros [= <-] ->%list_elem_of_singleton. simpl.
    unfold lax_bool in Hl. intros ->. repeat case_match; done.
  - simpl. destruct v; try destruct (validate_email s);
      unfold fail; intros [= <-] ->%list_elem_of_singleton; done.
  - simpl. destruct (validate_datetime v);
      unfold fail; intros [= <-] ->%list_elem_of_singleton; done.
  - simpl. destruct v; try case_bool_decide;
      unfold fail; intros [= <-] ->%list_elem_of_singleton; done.
  - destruct v;
      try (simpl; unfold fail; intros [= <-] ->%list_elem_of_singleton; done).
    intros Hes He.
    apply (validate_list_errors item ge le l es e Hes) in He
      as (i & x & es0 & e0 & _ & Hx & He0 & ->).
    simpl. by apply (IH None None x es0 e0).
  - simpl. destruct v; try apply IH. done.
Qed.

Lemma validate_fields_error_origin fs input e :
  e ∈ (validate_fields fs input).1 →
  ∃ f es e0, f ∈ fs ∧ validate_field f input = VErr es ∧ e0 ∈ es ∧
             e = prefix_loc (LocField (f_name f)) e0.
Proof.
  induction fs as [|g rest IH].
  - by intros ?%elem_of_nil.
  - rewrite validate_fields_cons.
    destruct (validate_field g input) as [v|es] eqn:Hg; simpl.
    + intros (f & es & e0 & ? & ? & ? & ?)%IH. exists f, es, e0. set_solver.
    + intros [He|He]%elem_of_app.
      * apply list_elem_of_fmap in He as (e0 & -> & He0).
        exists g, es, e0. split; [set_solver|]. done.
      * apply IH in He as (f & es' & e0 & ? & ? & ? & ?).
        exists f, es', e0. set_solver.
Qed.

Lemma validated_field_typed m (input rec : dict) f :
  NoDup (field_names m) → model_validate m input = Ok rec →
  f ∈ m_fields m →
  (∀ v, input !! f_name f = Some v →
        ∃ v', rec !! f_name f = Some v' ∧
              conforms (f_type f) (f_ge f) (f_le f) v') ∧
  (input !! f_name f = None →
   ∃ d, f_default f = Some d ∧ rec !! f_name f = Some d).
Proof.
  intros Hnd Hok%model_validate_ok Hf.
  assert ((validate_fields (m_fields m) input).1 = []) as Hnil
    by (by rewrite Hok).
  destruct (validate_fields_clean _ _ Hnil f Hf) as [v' Hv'].
  pose proof (validate_fields_lookup _ _ _ _ Hnd Hf Hv') as Hl.
  rewrite Hok in Hl. simpl in Hl.
  unfold validate_field in Hv'. split.
  - intros v Hv. rewrite Hv in Hv'. exists v'. split; [done|].
    by apply (validate_type_conforms _ _ _ v).
  - intros Hnone. rewrite Hnone in Hv'.
    destruct (f_default f) as [d|]; [|done]. injection Hv' as ->. by exists v'.
Qed.

(** X3: A validated record is typed: a supplied field holds a value of the
    declared type within the declared bounds, an absent field holds the
    declared default. *)
Theorem validated_record_is_typed m (input rec : dict) f :
  NoDup (field_names m) → model_validate m input = Ok rec →
  f ∈ m_fields m →
  (∀ v, input !! f_name f = Some v →
        ∃ v', rec !! f_name f = Some v' ∧
              conforms (f_type f) (f_ge f) (f_le f) v') ∧
  (input !! f_name f = None →
   ∃ d, f_default f = Some d ∧ rec !! f_name f = Some d).
Proof. apply validated_field_typed. Qed.

(** X4: A required field that the input leaves out is reported as missing,
    at that field; and an error of type missing is never reported for
    anything else. *)
Theorem missing_errors_are_absent_required_fields m (input : dict) :
  (∀ f, f ∈ m_fields m → f_default f = None → input !! f_name f = None →
     ∃ errs,
       model_validate m input = Raise (ValidationError (m_name m) errs) ∧
       ∃ e, e ∈ errs ∧ err_loc e = [LocField (f_name f)] ∧
            err_type e = missing) ∧
  (∀ errs e,
     model_validate m input = Raise (ValidationError (m_name m) errs) →
     e ∈ errs → err_type e = missing →
     ∃ f, f ∈ m_fields m ∧ err_loc e = [LocField (f_name f)] ∧
          f_default f = None ∧ input !! f_name f = None).
Proof.
  split.
  - intros f Hf Hd Hnone.
    assert (validate_field f input
              = VErr [LineError [] missing (VDict (map_to_list input))]) as Hv.
    { unfold validate_field. by rewrite Hnone, Hd. }
    pose proof (validate_fields_keeps (m_fields m) input f _ _ Hf Hv
                  ltac:(apply list_elem_of_here)) as He.
    exists (validate_fields (m_fields m) input).1. split.
    + apply model_validate_raise. split; [done|].
      intros Hnil. rewrite Hnil in He. by apply elem_of_nil in He.
    + eexists. split; [exact He|]. done.
  - intros errs e Hraise He Hty.
    apply model_validate_raise in Hraise as [[= ->] _].
    apply validate_fields_error_origin in He as (f & es & e0 & Hf & Hv & He0 & ->).
    exists f. split; [done|].
    unfold validate_field in Hv.
    destruct (input !! f_name f) as [v|].
    + by destruct (validate_type_never_missing _ _ _ _ _ e0 Hv He0).
    + destruct (f_default f); [done|]. unfold fail in Hv.
      injection Hv as <-. apply list_elem_of_singleton in He0 as ->. done.
Qed.

Lemma validate_items_fixed item l n :
  Forall (λ x, validate_type item None None x = VOk x) l →
  validate_items item n l = ([], l).
Proof.
  intros Hall. revert n.
  induction Hall as [|x rest Hx _ IH]; intros n; [done|].
  simpl. by rewrite (IH (S n)), Hx.
Qed.

(** X5: A field declared as a list of strings: a list of strings validates
    to itself (the empty list too); any other item is reported at the
    field and the item's index, as not a string. *)
Theorem string_list_items_are_checked_one_by_one m (input : dict) f l :
  f ∈ m_fields m → f_type f = TList TStr →
  input !! f_name f = Some (VList l) →
  (Forall is_str l → validate_field f input = VOk (VList l)) ∧
  (∀ i x, l !! i = Some x → ¬ is_str x →
     ∃ errs,
       model_validate m input = Raise (ValidationError (m_name m) errs) ∧
       LineError [LocField (f_name f); LocIndex i] string_type x ∈ errs).
Proof.
  intros Hf Hty Hin. split.
  - intros Hall. unfold validate_field. rewrite Hin, Hty.
    rewrite validate_list_run.
    rewrite (validate_items_fixed TStr l 0); [done|].
    eapply Forall_impl; [exact Hall|]. by intros x [s ->].
  - intros i x Hi Hx.
    assert (validate_type TStr None None x
              = VErr [LineError [] string_type x]) as Hbad.
    { destruct x; try done. destruct Hx. by eexists. }
    destruct (validate_list_fails TStr (f_ge f) (f_le f) l i x _ Hi Hbad)
      as [es Hes].
    assert (validate_field f input = VErr es) as Hv.
    { unfold validate_field. by rewrite Hin, Hty. }
    assert (prefix_loc (LocIndex i) (LineError [] string_type x) ∈ es) as He.
    { apply (validate_list_errors TStr _ _ l es _ Hes).
      exists i, x, [LineError [] string_type x], (LineError [] string_type x).
      split; [done|]. split; [done|]. split; [apply list_elem_of_here|done]. }
    pose proof (validate_fields_keeps (m_fields m) input f es _ Hf Hv He) as Hk.
    exists (validate_fields (m_fields m) input).1. split; [|exact Hk].
    apply model_validate_raise. split; [done|].
    intros Hnil. rewrite Hnil in Hk. by apply elem_of_nil in Hk.
Qed.

(** X6: Two inputs that agree on the declared fields fail together, with
    errors at the same places and of the same types. *)
Theorem undeclared_fields_leave_errors_alike m (in1 in2 : dict) n1 errs1 :
  (∀ k, k ∈ field_names m → in1 !! k = in2 !! k) →
  model_validate m in1 = Raise (ValidationError n1 errs1) →
  ∃ errs2,
    model_validate m in2 = Raise (ValidationError n1 errs2) ∧
    error_sig <$> errs2 = error_sig <$> errs1.
Proof.
  intros Hagree Hraise%model_validate_raise. destruct Hraise as [[= -> ->] Hne].
  destruct (validate_fields_agree (m_fields m) in1 in2 Hagree) as [_ He].
  exists (validate_fields (m_fields m) in2).1. split; [|done].
  apply model_validate_raise. split; [done|].
  intros Hnil. rewrite Hnil in He. simpl in He.
  by apply fmap_nil_inv in He.
Qed.

Lemma validate_items_values item l n vs :
  validate_items item n l = ([], vs) →
  Forall (λ y, ∃ x, validate_type item None None x = VOk y) vs.
Proof.
  revert n vs. induction l as [|x rest IH]; intros n vs.
  - simpl. intros [= <-]. constructor.
  - simpl. destruct (validate_items item (S n) rest) as [errs vs'] eqn:Hrest.
    destruct (validate_type item None None x) as [x'|es] eqn:Hx.
    + intros [= -> <-]. constructor; [by exists x|]. by apply (IH (S n)).
    + intros [= Hnil _]. apply app_eq_nil in Hnil as [Hes _].
      apply fmap_nil_inv in Hes. by apply validate_type_errs_nonempty in Hx.
Qed.

Lemma validate_type_idempotent t ge le v v' :
  plain t = true →
  validate_type t ge le v = VOk v' → validate_type t ge le v' = VOk v'.
Proof.
  revert ge le v v'.
  induction t as [| | | | | |cs|item IH|inner IH]; intros ge le v v' Hplain;
    try discriminate Hplain.
  - simpl. destruct v; try done. by intros [= <-].
  - simpl. destruct (lax_int v) as [e|z]; [done|].
    destruct (check_bounds ge le (float_of_int z)) eqn:Hb; [done|].
    intros [= <-]. simpl. by rewrite Hb.
  - simpl. destruct (lax_float v) as [e|f]; [done|].
    destruct (check_bounds ge le f) eqn:Hb; [done|].
    intros [= <-]. simpl. by rewrite Hb.
  - simpl. destruct (lax_bool v) as [e|b]; [done|]. by intros [= <-].
  - simpl. destruct v; try done. case_bool_decide; [|done].
    intros [= <-]. by rewrite bool_decide_true.
  - destruct v; try done. rewrite validate_list_run.
    destruct (validate_items item 0%nat l) as [[|e errs] vs] eqn:Hrun; [|done].
    intros [= <-]. rewrite validate_list_run.
    rewrite (validate_items_fixed item vs 0); [done|].
    eapply Forall_impl; [exact (validate_items_values _ _ _ _ Hrun)|].
    intros y [x Hx]. by apply (IH None None x).
  - simpl in Hplain. simpl. destruct v; try (by intros [= <-]);
      intros Hv; pose proof (IH _ _ _ _ Hplain Hv) as Hagain;
      destruct v'; done.
Qed.

Lemma validate_fields_all_ok fs (input : dict) :
  (∀ f, f ∈ fs → ∃ v, validate_field f input = VOk v) →
  (validate_fields fs input).1 = [].
Proof.
  intros Hall.
  destruct (validate_fields fs input).1 as [|e errs] eqn:Herrs; [done|].
  assert (e ∈ (validate_fields fs input).1) as He
    by (rewrite Herrs; apply list_elem_of_here).
  apply validate_fields_error_of in He as (f & Hf & _ & [es Hes]).
  destruct (Hall f Hf) as [v Hv]. congruence.
Qed.

(** A dict that holds, under every declared name, a value its field
    validates to itself, and nothing else, validates to itself. *)
Lemma model_validate_fixed m (payload : dict) :
  NoDup (field_names m) →
  (∀ f, f ∈ m_fields m →
        ∃ v, payload !! f_name f = Some v ∧ validate_field f payload = VOk v) →
  (∀ k, k ∉ field_names m → payload !! k = None) →
  model_validate m payload = Ok payload.
Proof.
  intros Hnd Hall Hrest. apply model_validate_ok.
  assert ((validate_fields (m_fields m) payload).1 = []) as Hnil.
  { apply validate_fields_all_ok. intros f Hf.
    destruct (Hall f Hf) as (v & _ & Hv). by exists v. }
  destruct (validate_fields (m_fields m) payload) as [errs rec] eqn:Hrun.
  simpl in Hnil. subst errs. f_equal. apply map_eq. intros k.
  destruct (decide (k ∈ field_names m)) as [Hk|Hk].
  - apply list_elem_of_fmap in Hk as (f & -> & Hf).
    destruct (Hall f Hf) as (v & Hp & Hv).
    pose proof (validate_fields_lookup _ _ _ _ Hnd Hf Hv) as Hl.
    rewrite Hrun in Hl. simpl in Hl. by rewrite Hl, Hp.
  - rewrite (Hrest k Hk).
    destruct (rec !! k) as [v|] eqn:Hv; [|done].
    exfalso. apply Hk. apply (validate_fields_declared (m_fields m) payload).
    rewrite Hrun. simpl. by rewrite Hv.
Qed.

Lemma model_validate_again m (input rec : dict) :
  NoDup (field_names m) → stable_model m →
  model_validate m input = Ok rec →
  model_validate m rec = Ok rec.
Proof.
  intros Hnd Hstable Hok. apply model_validate_fixed; [done| |].
  - intros f Hf. destruct (Hstable f Hf) as [Hplain Hdef].
    pose proof Hok as Hrun%model_validate_ok.
    assert ((validate_fields (m_fields m) input).1 = []) as Hnil
      by (by rewrite Hrun).
    destruct (validate_fields_clean _ _ Hnil f Hf) as [v Hv].
    pose proof (validate_fields_lookup _ _ _ _ Hnd Hf Hv) as Hl.
    rewrite Hrun in Hl. simpl in Hl.
    exists v. split; [done|].
    unfold validate_field in *. rewrite Hl.
    destruct (input !! f_name f) as [x|].
    + by apply (validate_type_idempotent _ _ _ x).
    + destruct (f_default f) as [d|]; [|done]. injection Hv as ->.
      by apply Hdef.
  - intros k Hk. by apply (model_validate_declared m input).
Qed.

(** X7: Validating a validated record again gives the same record, for a
    model of plain fields with stable defaults: a dump can be fed back
    to its model. *)
Theorem revalidating_a_record_changes_nothing m (input rec : dict) :
  NoDup (field_names m) → stable_model m →
  model_validate m input = Ok rec →
  model_validate m rec = Ok rec.
Proof. apply model_validate_again. Qed.

Ltac stable_fields :=
  intros f Hf; simpl in Hf;
  repeat (apply elem_of_cons in Hf as [->|Hf]);
  try (by apply elem_of_nil in Hf);
  (split; [reflexivity|]; intros d Hd; simpl in Hd;
   first [discriminate Hd | injection Hd as <-; vm_compute; reflexivity]).

Lemma stable_models :
  stable_model Video ∧ stable_model ForumPost ∧ stable_model Comment ∧
  stable_model Enrollment ∧ stable_model CreateVideo ∧
  stable_model CreateForumPost.
Proof. repeat apply conj; stable_fields. Qed.

(** ** [create_post] and [create_video] *)

(** X8: The request model of a forum post declares what the ForumPost
    schema declares, so the second validation in [create_post] never
    fails: the handler hands the validated payload itself to
    [create_document] and answers with the identifier it returns. *)
Theorem create_post_passes_the_payload_on
    (create_document : string → dict → M string) (body payload : dict) w :
  model_validate CreateForumPost body = Ok payload →
  model_validate ForumPost payload = Ok payload ∧
  create_post create_document payload w =
    match create_document "forumpost" payload w with
    | (Ok new_id, w') => (Ok {[ "id" := VStr new_id ]}, w')
    | (Raise e, w') => (Raise e, w')
    end.
Proof.
  intros Hok.
  assert (model_validate ForumPost payload = Ok payload) as Hagain.
  { apply model_validate_ok.
    apply (proj1 (model_validate_ok CreateForumPost payload payload)).
    apply (model_validate_again CreateForumPost body); [distinct_names| |done].
    apply stable_models. }
  split; [done|].
  unfold create_post, bind, lift, ret. rewrite Hagain.
  by destruct (create_document "forumpost" payload w) as [[new_id|e] w'].
Qed.

(** What a payload validated as [CreateVideo] looks like. *)
Lemma create_video_payload_shape (body payload : dict) :
  model_validate CreateVideo body = Ok payload →
  (∃ s, payload !! "title" = Some (VStr s)) ∧
  (payload !! "description" = Some VNone ∨
   ∃ s, payload !! "description" = Some (VStr s)) ∧
  (∃ s, payload !! "url" = Some (VStr s)) ∧
  (payload !! "duration_sec" = Some VNone ∨
   ∃ z, payload !! "duration_sec" = Some (VInt z)) ∧
  (∃ s, payload !! "level" = Some (VStr s)) ∧
  (∃ l, payload !! "topics" = Some (VList l) ∧ Forall is_str l) ∧
  (∃ s, payload !! "requires_plan" = Some (VStr s)) ∧
  (∀ k, k ∉ field_names Video → payload !! k = None).
Proof.
  intros Hok.
  assert (∀ f, f ∈ m_fields CreateVideo →
            ∃ v, payload !! f_name f = Some v ∧
                 (conforms (f_type f) (f_ge f) (f_le f) v ∨
                  f_default f = Some v)) as Hfield.
  { intros f Hf.
    destruct (validated_field_typed CreateVideo body payload f
                ltac:(distinct_names) Hok Hf) as [Hsup Habs].
    destruct (body !! f_name f) as [v|].
    - destruct (Hsup v eq_refl) as (v' & Hv' & Hc). exists v'. by split; [|left].
    - destruct (Habs eq_refl) as (d & Hd & Hrec). exists d. by split; [|right]. }
  repeat apply conj.
  - destruct (Hfield (required "title" TStr) ltac:(field_declared))
      as (v & Hv & [[s ->]|[=]]). by exists s.
  - destruct (Hfield (defaulted "description" (TOptional TStr) VNone)
                ltac:(field_declared))
      as (v & Hv & [[->|[s ->]]|[= <-]]); [by left|right; by exists s|by left].
  - destruct (Hfield (required "url" TStr) ltac:(field_declared))
      as (v & Hv & [[s ->]|[=]]). by exists s.
  - destruct (Hfield (defaulted "duration_sec" (TOptional TInt) VNone)
                ltac:(field_declared))
      as (v & Hv & [[->|(z & -> & _)]|[= <-]]);
      [by left|right; by exists z|by left].
  - destruct (Hfield (defaulted "level" TStr (VStr "beginner"))
                ltac:(field_declared))
      as (v & Hv & [[s ->]|[= <-]]); by eexists.
  - destruct (Hfield (defaulted "topics" (TList TStr) (VList []))
                ltac:(field_declared))
      as (v & Hv & [(l & -> & Hl)|[= <-]]).
    + exists l. split; [done|]. eapply Forall_impl; [exact Hl|]. by intros x [s ->]; exists s.
    + exists []. by split.
  - destruct (Hfield (defaulted "requires_plan" TStr (VStr "BASIC"))
                ltac:(field_declared))
      as (v & Hv & [[s ->]|[= <-]]); by eexists.
  - intros k Hk. by apply (model_validate_declared CreateVideo body).
Qed.

#[local] Arguments check_bounds : simpl never.

Lemma validate_str ge le s :
  validate_type TStr ge le (VStr s) = VOk (VStr s).
Proof. done. Qed.

Lemma validate_optional_none t ge le :
  validate_type (TOptional t) ge le VNone = VOk VNone.
Proof. done. Qed.

Lemma validate_optional_str ge le s :
  validate_type (TOptional TStr) ge le (VStr s) = VOk (VStr s).
Proof. done. Qed.

Lemma validate_optional_int ge le z :
  validate_type (TOptional TInt) ge le (VInt z) =
    match check_bounds ge le (float_of_int z) with
    | None => VOk (VInt z)
    | Some e => fail e (VInt z)
    end.
Proof. done. Qed.

Lemma validate_literal choices ge le s :
  validate_type (TLiteral choices) ge le (VStr s) =
    if bool_decide (s ∈ choices) then VOk (VStr s)
    else fail (literal_error choices) (VStr s).
Proof. done. Qed.

#[local] Arguments validate_type : simpl never.

(** The Video schema on a payload validated as [CreateVideo], field by
    field. *)
Lemma video_fields_on_payload (body payload : dict) f :
  model_validate CreateVideo body = Ok payload →
  f ∈ m_fields Video →
  (∃ v, payload !! f_name f = Some v ∧ validate_field f payload = VOk v) ∨
  (f_name f ∈ ["duration_sec"; "level"; "requires_plan"] ∧
   violates f payload ∧ ¬ video_ok payload).
Proof.
  intros Hok Hf.
  destruct (create_video_payload_shape body payload Hok)
    as ([s1 Ht] & Hd & [s2 Hu] & Hdur & [s3 Hl] & (l & Htop & Hstr)
        & [s4 Hp] & _).
  simpl in Hf. unfold violates, validate_field.
  repeat (apply elem_of_cons in Hf as [->|Hf]);
    [..|by apply elem_of_nil in Hf]; simpl.
  - left. rewrite Ht. eexists; split; reflexivity.
  - left. destruct Hd as [->|[s ->]]; eexists; split; reflexivity.
  - left. rewrite Hu. eexists; split; reflexivity.
  - destruct Hdur as [Hdur|[z Hdur]]; rewrite Hdur.
    + left. eexists; split; reflexivity.
    + rewrite validate_optional_int.
      destruct (check_bounds (Some 0%Q) None (float_of_int z)) as [e|] eqn:Hb.
      * right. split; [set_solver|]. split; [eexists; reflexivity|].
        intros (_ & _ & [Hnone|(z' & Hz' & Hpos)]); [congruence|].
        rewrite Hdur in Hz'. injection Hz' as <-.
        apply check_position_bound in Hpos. congruence.
      * left. eexists; split; reflexivity.
  - rewrite Hl, validate_literal. case_bool_decide as Hin.
    + left. eexists; split; reflexivity.
    + right. split; [set_solver|]. split; [eexists; reflexivity|].
      intros ((s & Hs & Hs') & _). rewrite Hl in Hs. by injection Hs as <-.
  - left. rewrite Htop. exists (VList l). split; [done|].
    rewrite validate_list_run, (validate_items_fixed TStr l 0); [done|].
    eapply Forall_impl; [exact Hstr|]. by intros x [s ->].
  - rewrite Hp, validate_literal. case_bool_decide as Hin.
    + left. eexists; split; reflexivity.
    + right. split; [set_solver|]. split; [eexists; reflexivity|].
      intros (_ & (s & Hs & Hs') & _). rewrite Hp in Hs. by injection Hs as <-.
Qed.

Lemma video_ok_of_fields (body payload : dict) :
  model_validate CreateVideo body = Ok payload →
  (∀ f, f ∈ m_fields Video → ∃ v, validate_field f payload = VOk v) →
  video_ok payload.
Proof.
  intros Hok Hall.
  destruct (create_video_payload_shape body payload Hok)
    as (_ & _ & _ & Hdur & [s3 Hl] & _ & [s4 Hp] & _).
  repeat apply conj.
  - destruct (Hall (defaulted "level"
                      (TLiteral ["beginner"; "intermediate"; "advanced"])
                      (VStr "beginner")) ltac:(field_declared)) as [v Hv].
    unfold validate_field in Hv. cbn [f_name f_type f_ge f_le defaulted] in Hv.
    rewrite Hl, validate_literal in Hv.
    case_bool_decide; [|done]. by exists s3.
  - destruct (Hall (defaulted "requires_plan" (TLiteral plan_tiers)
                      (VStr "BASIC")) ltac:(field_declared)) as [v Hv].
    unfold validate_field in Hv. cbn [f_name f_type f_ge f_le defaulted] in Hv.
    rewrite Hp, validate_literal in Hv.
    case_bool_decide; [|done]. by exists s4.
  - destruct Hdur as [Hdur|[z Hdur]]; [by left|right].
    destruct (Hall (MkField "duration_sec" (TOptional TInt) (Some VNone)
                      (Some 0%Q) None) ltac:(field_declared)) as [v Hv].
    unfold validate_field in Hv. cbn [f_name f_type f_ge f_le] in Hv.
    rewrite Hdur, validate_optional_int in Hv.
    destruct (check_bounds (Some 0%Q) None (float_of_int z)) eqn:Hb; [done|].
    exists z. split; [done|]. by apply check_position_bound.
Qed.

(** X9: [create_video] validates the payload a second time, against the
    Video schema, which is stricter than the request model: a payload
    whose level and plan are among the declared ones and whose duration
    is absent or not negative is handed unchanged to [create_document];
    any other payload raises [ValidationError] with errors at those
    fields only, [create_document] is not called and the world is left
    as it was. *)
Theorem create_video_rejects_what_the_request_model_lets_through
    (create_document : string → dict → M string) (body payload : dict) w :
  model_validate CreateVideo body = Ok payload →
  (video_ok payload →
     create_video create_document payload w =
       match create_document "video" payload w with
       | (Ok new_id, w') => (Ok {[ "id" := VStr new_id ]}, w')
       | (Raise e, w') => (Raise e, w')
       end) ∧
  (¬ video_ok payload →
     ∃ errs,
       create_video create_document payload w
         = (Raise (ValidationError "Video" errs), w) ∧
       errs ≠ [] ∧
       ∀ e, e ∈ errs →
            ∃ name, error_field e = Some name ∧
                    name ∈ ["duration_sec"; "level"; "requires_plan"]).
Proof.
  intros Hok. split.
  - intros Hvideo.
    assert (model_validate Video payload = Ok payload) as Hagain.
    { apply model_validate_fixed; [distinct_names| |].
      - intros f Hf.
        by destruct (video_fields_on_payload body payload f Hok Hf)
          as [?|(_ & _ & ?)].
      - apply (create_video_payload_shape body payload Hok). }
    unfold create_video, bind, lift, ret. rewrite Hagain.
    by destruct (create_document "video" payload w) as [[new_id|e] w'].
  - intros Hbad.
    destruct (model_validate Video payload) as [vid|e] eqn:Hv.
    + exfalso. apply Hbad. apply (video_ok_of_fields body payload Hok).
      apply model_validate_ok in Hv. apply validate_fields_clean.
      by rewrite Hv.
    + apply model_validate_raise in Hv as [-> Hne].
      eexists. split; [|split; [exact Hne|]].
      * unfold create_video, bind, lift.
        destruct (model_validate Video payload) as [vid|e] eqn:Hv.
        -- apply model_validate_ok in Hv. by rewrite Hv in Hne.
        -- by apply model_validate_raise in Hv as [-> _].
      * intros e (f & Hf & Hloc & Hviol)%validate_fields_error_of.
        exists (f_name f). split; [done|].
        destruct (video_fields_on_payload body payload f Hok Hf)
          as [(v & _ & Hv)|(Hname & _)]; [|done].
        destruct Hviol as [es Hes]. congruence.
Qed.

End ValidationExtras.

(** ** [upsert_progress] *)

Section UpsertExtras.
Context {lib : PyLib}.
Variable clock : nat → Z.

#[local] Arguments check_bounds : simpl never.

(** Every path through [upsert_progress], on any world. *)
Lemma upsert_paths p w :
  (w_connected w = false ∧
   upsert_progress clock p w
     = (Raise (HTTPException 500 "Database not configured"), w)) ∨
  (w_connected w = true ∧
   ∃ e, model_validate Progress (model_dump p) = Raise e ∧
        upsert_progress clock p w = (Raise e, w)) ∨
  (w_connected w = true ∧
   model_validate Progress (model_dump p) = Ok (model_dump p) ∧
   ((∃ found,
       List.find (matches [("user_id", VStr (user_id p));
                           ("video_id", VStr (video_id p))])
         (progress_docs (w_store w)) = Some found ∧
       dict_is_empty found = false ∧ found !! "_id" = None ∧
       upsert_progress clock p w
         = (Raise (KeyError "_id"),
            World true (w_store w) (S (w_ticks w)))) ∨
    (∃ r w', upsert_progress clock p w = (Ok r, w')))).
Proof.
  destruct (w_connected w) eqn:Hc.
  - right. destruct (model_validate Progress (model_dump p)) as [data|e] eqn:Hv.
    + right. split; [done|].
      pose proof (proj1 (progress_dump_validate p) data Hv) as ->.
      split; [done|].
      destruct (List.find
                  (matches [("user_id", VStr (user_id p));
                            ("video_id", VStr (video_id p))])
                  (progress_docs (w_store w))) as [found|] eqn:Hfind.
      * destruct (found !! "_id") as [i|] eqn:Hi.
        -- right. rewrite (upsert_updates clock p w _ found i Hc Hv Hfind Hi).
           by eexists _, _.
        -- destruct (dict_is_empty found) eqn:He.
           ++ right. destruct w as [conn s t]. simpl in *. subst conn.
              unfold upsert_progress, bind, get_db, db, find_one, lift, now,
                insert_one, ret. simpl.
              unfold progress_docs in Hfind. rewrite Hfind, Hv, He.
              by eexists _, _.
           ++ left. exists found. split; [done|]. split; [done|]. split; [done|].
              destruct w as [conn s t]. simpl in *. subst conn.
              unfold upsert_progress, bind, get_db, db, find_one, lift, now,
                getitem, raise. simpl.
              unfold progress_docs in Hfind. by rewrite Hfind, Hv, He, Hi.
      * right. rewrite (upsert_inserts clock p w _ Hc Hv Hfind). by eexists _, _.
    + left. split; [done|]. exists e. split; [done|]. by apply upsert_invalid.
  - left. split; [done|]. by apply upsert_unconfigured.
Qed.

Lemma upsert_that_raises_writes_nothing_aux p w e w' :
  upsert_progress clock p w = (Raise e, w') →
  w_store w' = w_store w ∧ w_connected w' = w_connected w.
Proof.
  intros Hrun.
  destruct (upsert_paths p w)
    as [[Hc H]|[(Hc & e' & _ & H)|(Hc & _ & [(f & _ & _ & _ & H)|(r & w'' & H)])]];
    rewrite H in Hrun; try discriminate Hrun; injection Hrun as <- <-; done.
Qed.

(** X10: An upsert that raises has written nothing: the store is as it was,
    whatever was in it, and so is the handle. *)
Theorem upsert_that_raises_writes_nothing p w e w' :
  upsert_progress clock p w = (Raise e, w') →
  w_store w' = w_store w ∧ w_connected w' = w_connected w.
Proof. apply upsert_that_raises_writes_nothing_aux. Qed.




(** The two ways an upsert succeeds on a store as this program keeps
    it. *)
Lemma upsert_ok_step p w r w' :
  store_ok (w_store w) → upsert_progress clock p w = (Ok r, w') →
  (∃ found oid before after,
     progress_docs (w_store w) = before ++ found :: after ∧
     pair_of found = Some (user_id p, video_id p) ∧
     (∀ x, x ∈ before → pair_of x ≠ Some (user_id p, video_id p)) ∧
     found !! "_id" = Some (VObjectId oid) ∧
     r = {[ "id" := VStr (str_of_oid oid) ]} ∧
     w' = World true
            (set_collection (w_store w) "progress"
               (before ++
                  (<["updated_at" :=
                       VDatetime (bson_millis (clock (w_ticks w)))]>
                     (model_dump p) ∪ found) :: after))
            (S (w_ticks w))) ∨
  ((∀ d, d ∈ progress_docs (w_store w) →
         pair_of d ≠ Some (user_id p, video_id p)) ∧
   r = {[ "id" := VStr (str_of_oid (db_next_oid (w_store w))) ]} ∧
   w' = World true
          (Database
             (<["progress" :=
                  progress_docs (w_store w) ++
                    [inserted_record (model_dump p) (clock (w_ticks w))
                       (clock (S (w_ticks w))) (db_next_oid (w_store w))]]>
                (db_colls (w_store w)))
             (N.succ (db_next_oid (w_store w))))
          (S (S (w_ticks w)))).
Proof.
  intros Hok Hrun.
  destruct (upsert_paths p w)
    as [[Hc H]|[(Hc & e' & Hv & H)
               |(Hc & Hv & [(f & _ & _ & _ & H)|_])]];
    try (rewrite H in Hrun; discriminate Hrun).
  destruct (List.find
              (matches [("user_id", VStr (user_id p));
                        ("video_id", VStr (video_id p))])
              (progress_docs (w_store w))) as [found|] eqn:Hfind.
  - left. destruct (find_some_elem _ _ _ Hfind) as [Hin Hm].
    apply matches_pair_true in Hm; [|by apply (ok_pair _ Hok)].
    destruct (upsert_existing clock p w found Hc Hok (ex_intro _ _ Hv) Hin Hm)
      as (found' & oid & before & after & Hsplit & Hfp & Hfirst & Hid & H).
    rewrite H in Hrun. injection Hrun as <- <-.
    by exists found', oid, before, after.
  - right.
    assert (∀ d, d ∈ progress_docs (w_store w) →
                 pair_of d ≠ Some (user_id p, video_id p)) as Hnew.
    { intros d Hd Hp.
      pose proof (find_none_all _ _ Hfind d Hd) as Hm.
      rewrite (proj2 (matches_pair_true d _ _ (ok_pair _ Hok d Hd)) Hp) in Hm.
      done. }
    rewrite (upsert_new clock p w Hc Hok (ex_intro _ _ Hv) Hnew) in Hrun.
    by injection Hrun as <- <-.
Qed.

Lemma upsert_step_store_ok p w :
  store_ok (w_store w) → store_ok (w_store (upsert_progress clock p w).2).
Proof.
  intros Hok.
  destruct (upsert_progress clock p w) as [[r|e] w'] eqn:Hrun; simpl.
  - destruct (upsert_ok_step p w r w' Hok Hrun)
      as [(found & oid & before & after & Hsplit & Hfp & _ & _ & _ & ->)
         |(Hnew & _ & ->)]; simpl.
    + apply store_ok_same_keys; [|done]. rewrite Hsplit. apply Forall2_app.
      * apply Forall_Forall2_diag, Forall_forall. intros; apply same_keys_refl.
      * constructor; [by apply updated_same_keys|].
        apply Forall_Forall2_diag, Forall_forall. intros; apply same_keys_refl.
    + destruct (inserted_record_lookup p (clock (w_ticks w))
                  (clock (S (w_ticks w))) (db_next_oid (w_store w)))
        as (Hid & _ & _ & Hu & Hvid & _). cbv zeta in *.
      apply store_ok_insert; [done|by apply oid_of_lookup|].
      exists (user_id p, video_id p). by apply pair_of_lookup.
  - by rewrite (proj1 (upsert_that_raises_writes_nothing_aux p w e w' Hrun)).
Qed.

Lemma find_first {A} (P : A → bool) (before after : list A) x :
  P x = true → (∀ y, y ∈ before → P y = false) →
  List.find P (before ++ x :: after) = Some x.
Proof.
  intros Hx. induction before as [|y before IH]; intros Hb; simpl.
  - by rewrite Hx.
  - rewrite (Hb y); [|apply list_elem_of_here].
    apply IH. intros z Hz. apply Hb. by apply list_elem_of_further.
Qed.

Lemma progress_docs_inserted s c :
  progress_docs
    (Database (<["progress" := c]> (db_colls s)) (N.succ (db_next_oid s))) = c.
Proof. unfold progress_docs, collection. simpl. by rewrite lookup_insert_eq. Qed.

(** X12: An upsert changes nothing but the record of its pair: every record
    with another pair stays where it is, as it is; no record is removed
    and at most one is added; the other collections are untouched. *)
Theorem upsert_leaves_other_pairs_alone p w :
  store_ok (w_store w) →
  (∀ i d, progress_docs (w_store w) !! i = Some d →
          pair_of d ≠ Some (user_id p, video_id p) →
          progress_docs (w_store (upsert_progress clock p w).2) !! i = Some d) ∧
  (∀ name, name ≠ "progress" →
     collection (w_store (upsert_progress clock p w).2) name
       = collection (w_store w) name) ∧
  (length (progress_docs (w_store w))
     ≤ length (progress_docs (w_store (upsert_progress clock p w).2)))%nat ∧
  (length (progress_docs (w_store (upsert_progress clock p w).2))
     ≤ S (length (progress_docs (w_store w))))%nat.
Proof.
  intros Hok.
  destruct (upsert_progress clock p w) as [[r|e] w'] eqn:Hrun; simpl.
  - destruct (upsert_ok_step p w r w' Hok Hrun)
      as [(found & oid & before & after & Hsplit & Hfp & _ & _ & _ & ->)
         |(Hnew & _ & ->)]; simpl.
    + rewrite progress_docs_set, Hsplit. repeat apply conj.
      * intros i d Hi Hd.
        destruct (decide (i = length before)) as [->|Hne].
        -- rewrite list_lookup_middle in Hi; [|done]. injection Hi as <-.
           by destruct Hd.
        -- rewrite <- Hi.
           destruct (decide (i < length before)%nat).
           ++ by rewrite !lookup_app_l.
           ++ rewrite !lookup_app_r by lia.
              destruct (i - length before)%nat eqn:Hk; [lia|done].
      * intros name Hname. unfold collection, set_collection. simpl.
        by rewrite lookup_insert_ne.
      * rewrite !length_app. simpl. lia.
      * rewrite !length_app. simpl. lia.
    + rewrite progress_docs_inserted. repeat apply conj.
      * intros i d Hi _. by apply lookup_app_l_Some.
      * intros name Hname. unfold collection. simpl.
        by rewrite lookup_insert_ne.
      * rewrite length_app. simpl. lia.
      * rewrite length_app. simpl. lia.
  - destruct (upsert_that_raises_writes_nothing_aux p w e w' Hrun) as [-> _].
    repeat apply conj; [done|done|lia|lia].
Qed.

Lemma lookup_after_upsert p w r w' :
  store_ok (w_store w) → upsert_progress clock p w = (Ok r, w') →
  ∃ d oid,
    find_one "progress"
      [("user_id", VStr (user_id p)); ("video_id", VStr (video_id p))] w'
      = (Ok (Some d), w') ∧
    d !! "_id" = Some (VObjectId oid) ∧
    r = {[ "id" := VStr (str_of_oid oid) ]} ∧
    d !! "percent" = Some (VFloat (percent p)) ∧
    d !! "last_position_sec" = Some (optional_int (last_position_sec p)) ∧
    d !! "updated_at" = Some (VDatetime (bson_millis (clock (w_ticks w)))).
Proof.
  intros Hok Hrun.
  assert (∀ x, pair_of x = Some (user_id p, video_id p) →
               matches [("user_id", VStr (user_id p));
                        ("video_id", VStr (video_id p))] x = true) as Hyes.
  { intros x Hx. apply matches_pair_true; [by rewrite Hx|done]. }
  assert (∀ x, x ∈ progress_docs (w_store w) →
               pair_of x ≠ Some (user_id p, video_id p) →
               matches [("user_id", VStr (user_id p));
                        ("video_id", VStr (video_id p))] x = false) as Hno.
  { intros x Hx Hp. apply not_true_is_false. intros Hm. apply Hp.
    by apply matches_pair_true; [apply (ok_pair _ Hok)|]. }
  destruct (upsert_ok_step p w r w' Hok Hrun)
    as [(found & oid & before & after & Hsplit & Hfp & Hfirst & Hid & -> & ->)
       |(Hnew & -> & ->)].
  - destruct (stamped_dump_lookup p (bson_millis (clock (w_ticks w))))
      as (Hu & Hv & Hpc & Hl & Ht & Hnone). cbv zeta in *.
    eexists _, oid. split.
    + unfold find_one. simpl. fold (progress_docs
        (set_collection (w_store w) "progress"
           (before ++
              (<["updated_at" := VDatetime (bson_millis (clock (w_ticks w)))]>
                 (model_dump p) ∪ found) :: after))).
      rewrite progress_docs_set.
      rewrite (find_first _ before after
                 (<["updated_at" := VDatetime (bson_millis (clock (w_ticks w)))]>
                    (model_dump p) ∪ found)); [done| |].
      * apply Hyes. apply pair_of_lookup. split; by apply lookup_union_Some_l.
      * intros y Hy. apply Hno; [|by apply Hfirst].
        rewrite Hsplit. apply elem_of_app. by left.
    + split; [rewrite <- Hid; apply lookup_union_r, Hnone; set_solver|].
      split; [done|].
      split; [by apply lookup_union_Some_l|].
      split; by apply lookup_union_Some_l.
  - destruct (inserted_record_lookup p (clock (w_ticks w))
                (clock (S (w_ticks w))) (db_next_oid (w_store w)))
      as (Hid & _ & Hup & Hu & Hv & Hpc & Hl). cbv zeta in *.
    eexists _, _. split.
    + unfold find_one. simpl.
      fold (progress_docs
              (Database
                 (<["progress" :=
                      progress_docs (w_store w) ++
                        [inserted_record (model_dump p) (clock (w_ticks w))
                           (clock (S (w_ticks w))) (db_next_oid (w_store w))]]>
                    (db_colls (w_store w)))
                 (N.succ (db_next_oid (w_store w))))).
      rewrite progress_docs_inserted.
      rewrite (find_first _ (progress_docs (w_store w)) []); [done| |].
      * apply Hyes. by apply pair_of_lookup.
      * intros y Hy. by apply Hno; [|apply Hnew].
    + done.
Qed.

(** X13: Read your write: after a successful upsert, looking the pair up the
    way the handler does finds a record that holds the request's
    percent and position and the clock reading, and whose identifier is
    the one the upsert returned. *)
Theorem lookup_after_upsert_finds_the_request p w r w' :
  store_ok (w_store w) → upsert_progress clock p w = (Ok r, w') →
  ∃ d oid,
    find_one "progress"
      [("user_id", VStr (user_id p)); ("video_id", VStr (video_id p))] w'
      = (Ok (Some d), w') ∧
    d !! "_id" = Some (VObjectId oid) ∧
    r = {[ "id" := VStr (str_of_oid oid) ]} ∧
    d !! "percent" = Some (VFloat (percent p)) ∧
    d !! "last_position_sec" = Some (optional_int (last_position_sec p)) ∧
    d !! "updated_at" = Some (VDatetime (bson_millis (clock (w_ticks w)))).
Proof. apply lookup_after_upsert. Qed.




Lemma upsert_step_keeps p w i d :
  store_ok (w_store w) → progress_docs (w_store w) !! i = Some d →
  ∃ d', progress_docs (w_store (upsert_progress clock p w).2) !! i = Some d' ∧
        d' !! "_id" = d !! "_id" ∧
        d' !! "created_at" = d !! "created_at" ∧
        pair_of d' = pair_of d.
Proof.
  intros Hok Hi.
  destruct (upsert_progress clock p w) as [[r|e] w'] eqn:Hrun; simpl.
  - destruct (upsert_ok_step p w r w' Hok Hrun)
      as [(found & oid & before & after & Hsplit & Hfp & _ & _ & _ & ->)
         |(Hnew & _ & ->)]; simpl.
    + rewrite progress_docs_set. rewrite Hsplit in Hi.
      destruct (decide (i = length before)) as [->|Hne].
      * rewrite list_lookup_middle in Hi; [|done]. injection Hi as <-.
        rewrite list_lookup_middle; [|done]. eexists. split; [done|].
        destruct (stamped_dump_lookup p (bson_millis (clock (w_ticks w))))
          as (_ & _ & _ & _ & _ & Hnone). cbv zeta in *.
        split; [apply lookup_union_r, Hnone; set_solver|].
        split; [apply lookup_union_r, Hnone; set_solver|].
        by apply same_keys_pair, updated_same_keys.
      * exists d. split; [|done]. rewrite <- Hi.
        destruct (decide (i < length before)%nat).
        -- by rewrite !lookup_app_l.
        -- rewrite !lookup_app_r by lia.
           destruct (i - length before)%nat eqn:Hk; [lia|done].
    + rewrite progress_docs_inserted. exists d. split; [|done].
      by apply lookup_app_l_Some.
  - destruct (upsert_that_raises_writes_nothing_aux p w e w' Hrun) as [-> _].
    by exists d.
Qed.

Lemma upsert_all_store_ok ps w :
  store_ok (w_store w) → store_ok (w_store (upsert_all clock ps w)).
Proof.
  revert w. induction ps as [|p ps IH]; intros w Hok; [done|].
  simpl. by apply IH, upsert_step_store_ok.
Qed.

(** X15: Over any run of upserts a record keeps its place, its identifier,
    its created_at and its pair: created_at is written once, when the
    record is inserted. *)
Theorem upserts_keep_identifier_and_created_at ps w i d :
  store_ok (w_store w) → progress_docs (w_store w) !! i = Some d →
  ∃ d', progress_docs (w_store (upsert_all clock ps w)) !! i = Some d' ∧
        d' !! "_id" = d !! "_id" ∧
        d' !! "created_at" = d !! "created_at" ∧
        pair_of d' = pair_of d.
Proof.
  revert w d. induction ps as [|p ps IH]; intros w d Hok Hi.
  - by exists d.
  - simpl.
    destruct (upsert_step_keeps p w i d Hok Hi) as (d1 & Hi1 & Hid & Hcr & Hp).
    destruct (IH _ d1 (upsert_step_store_ok p w Hok) Hi1)
      as (d' & Hi' & Hid' & Hcr' & Hp').
    exists d'. split; [done|]. split; [congruence|]. split; congruence.
Qed.




End UpsertExtras.

(** ** [test_database] *)

Section DiagnosticsFacts.

(** X17: The two configuration fields of the diagnostics response say only
    whether the environment variable is set to a non-empty text: what
    the handler wrote there while looking at the store handle is always
    overwritten, so the response is the same for every store. *)
Theorem diagnostics_report_the_environment_only w pr getenv :
  test_database w pr getenv !! "database_url"
    = Some (VStr (if env_set getenv "DATABASE_URL" then "✅ Set"
                  else "❌ Not Set")) ∧
  test_database w pr getenv !! "database_name"
    = Some (VStr (if env_set getenv "DATABASE_NAME" then "✅ Set"
                  else "❌ Not Set")) ∧
  (∀ w' pr' k, k = "database_url" ∨ k = "database_name" →
     test_database w' pr' getenv !! k = test_database w pr getenv !! k).
Proof.
  assert (∀ w pr,
    test_database w pr getenv !! "database_url"
      = Some (VStr (if env_set getenv "DATABASE_URL" then "✅ Set"
                    else "❌ Not Set")) ∧
    test_database w pr getenv !! "database_name"
      = Some (VStr (if env_set getenv "DATABASE_NAME" then "✅ Set"
                    else "❌ Not Set"))) as Hboth.
  { intros w0 pr0. unfold test_database. split.
    - rewrite lookup_insert_ne; [|done]. by rewrite lookup_insert_eq.
    - by rewrite lookup_insert_eq. }
  destruct (Hboth w pr) as [Hu Hn]. split; [done|]. split; [done|].
  intros w' pr' k [-> | ->]; destruct (Hboth w' pr') as [Hu' Hn']; congruence.
Qed.

(** X18: What the diagnostics response says about the store: without a
    handle, not connected and no collections; with a handle whose
    listing works, connected and the first twenty collection names;
    with a handle whose listing raises, connected, no collections and
    the first fifty characters of the error.  The status never stays at
    its initial text. *)
Theorem diagnostics_report_the_store w pr getenv :
  let response := test_database w pr getenv in
  response !! "backend" = Some (VStr "✅ Running") ∧
  dom response = list_to_set ["backend"; "database"; "database_url";
                              "database_name"; "connection_status";
                              "collections"] ∧
  response !! "database" ≠ Some (VStr "❌ Not Available") ∧
  (db w = None →
     response !! "database"
       = Some (VStr "⚠️  Available but not initialized") ∧
     response !! "connection_status" = Some (VStr "Not Connected") ∧
     response !! "collections" = Some (VList [])) ∧
  (∀ names, db w ≠ None → list_collection_names pr = inr names →
     response !! "database" = Some (VStr "✅ Connected & Working") ∧
     response !! "connection_status" = Some (VStr "Connected") ∧
     response !! "collections" = Some (VList (VStr <$> take 20 names)) ∧
     (length (take 20 names) ≤ 20)%nat) ∧
  (∀ text, db w ≠ None → list_collection_names pr = inl text →
     response !! "database"
       = Some (VStr ("⚠️  Connected but Error: " +:+ utf8_prefix 50 text)) ∧
     response !! "connection_status" = Some (VStr "Connected") ∧
     response !! "collections" = Some (VList [])).
Proof.
  cbv zeta. unfold test_database.
  destruct (db w) as [s|]; [destruct (list_collection_names pr) as [text|names]|].
  - split; [by simplify_map_eq|].
    split; [rewrite !dom_insert_L, dom_singleton_L; set_solver|].
    split; [by simplify_map_eq|].
    split; [intros H; discriminate H|].
    split; [intros names _ H; discriminate H|].
    intros text' _ [= <-]. repeat split; by simplify_map_eq.
  - split; [by simplify_map_eq|].
    split; [rewrite !dom_insert_L, dom_singleton_L; set_solver|].
    split; [by simplify_map_eq|].
    split; [intros H; discriminate H|].
    split; [|intros text _ H; discriminate H].
    intros names' _ [= <-]. repeat split; try (by simplify_map_eq).
    rewrite length_take. lia.
  - split; [by simplify_map_eq|].
    split; [rewrite !dom_insert_L, dom_singleton_L; set_solver|].
    split; [by simplify_map_eq|].
    split; [intros _; repeat split; by simplify_map_eq|].
    split; [by intros names Hdb|by intros text Hdb].
Qed.

End DiagnosticsFacts.

(** ** Upsert, then list *)

Section UpsertThenList.
Context {lib : PyLib}.
Variable clock : nat → Z.

(** X19: The identifier a successful upsert answers with is the id under
    which the record of the pair is serialized for a list response,
    where it appears with the request's percent and position and
    without the internal identifier. *)
Theorem returned_id_is_the_serialized_id p w r w' :
  store_ok (w_store w) → upsert_progress clock p w = (Ok r, w') →
  ∃ d, d ∈ progress_docs (w_store w') ∧
       pair_of d = Some (user_id p, video_id p) ∧
       serialize_doc d !! "id" = r !! "id" ∧
       serialize_doc d !! "_id" = None ∧
       serialize_doc d !! "percent" = Some (VFloat (percent p)) ∧
       serialize_doc d !! "last_position_sec"
         = Some (optional_int (last_position_sec p)).
Proof.
  intros Hok Hrun.
  destruct (lookup_after_upsert clock p w r w' Hok Hrun)
    as (d & oid & Hfind & Hid & -> & Hpc & Hl & _).
  unfold find_one in Hfind. injection Hfind as Hfind.
  apply find_some_elem in Hfind as [Hin Hm].
  pose proof (upsert_step_store_ok clock p w Hok) as Hok'.
  rewrite Hrun in Hok'. simpl in Hok'.
  apply matches_pair_true in Hm; [|by apply (ok_pair _ Hok')].
  exists d. split; [done|]. split; [done|].
  rewrite (serialize_doc_with_id d _ Hid).
  split; [by rewrite lookup_insert_eq, lookup_singleton_eq|].
  split; [rewrite lookup_insert_ne; [|done]; by rewrite lookup_delete_eq|].
  split; rewrite lookup_insert_ne; [|done| |done]; by rewrite lookup_delete_ne.
Qed.

End UpsertThenList.

(** ** The further properties on concrete inputs *)

Lemma serialize_doc_keys_witness :
  serialize_doc (lib := sample_lib) stored_with_id !! "id"
    = Some (VStr "0000000000000000000000ff") ∧
  size (serialize_doc (lib := sample_lib) stored_with_id) = 2%nat.
Proof.
  destruct (serialize_doc_keys (lib := sample_lib) stored_with_id
              (VObjectId 255) eq_refl) as (_ & Hold & _).
  destruct (Hold (VStr "legacy") eq_refl) as [Hid Hsize].
  split; [exact Hid|]. rewrite Hsize. vm_compute. reflexivity.
Defined.

Lemma validated_record_is_typed_witness :
  ∃ rec v,
    model_validate (lib := sample_lib) Progress progress_input = Ok rec ∧
    rec !! "percent" = Some v ∧
    conforms TFloat (Some 0%Q) (Some 100%Q) v ∧
    rec !! "last_position_sec" = Some (VInt 0).
Proof.
  destruct (model_validate (lib := sample_lib) Progress progress_input)
    as [rec|e] eqn:Hv; [|vm_compute in Hv; discriminate Hv].
  destruct (validated_record_is_typed (lib := sample_lib) Progress
              progress_input rec
              (MkField "percent" TFloat (Some (VInt 0)) (Some 0%Q) (Some 100%Q))
              ltac:(distinct_names) Hv ltac:(field_declared)) as [Hsup _].
  destruct (Hsup (VInt 50) eq_refl) as (v & Hrec & Hconf).
  destruct (validated_record_is_typed (lib := sample_lib) Progress
              progress_input rec
              (MkField "last_position_sec" (TOptional TInt) (Some (VInt 0))
                 (Some 0%Q) None)
              ltac:(distinct_names) Hv ltac:(field_declared)) as [_ Habs].
  destruct (Habs eq_refl) as (d & Hd & Hrec').
  exists rec, v. split; [reflexivity|]. split; [exact Hrec|].
  split; [exact Hconf|]. simpl in Hd. injection Hd as <-. exact Hrec'.
Defined.

Lemma missing_errors_witness :
  ∃ errs e,
    model_validate (lib := sample_lib) Progress percent_only_input
      = Raise (ValidationError "Progress" errs) ∧
    e ∈ errs ∧ err_loc e = [LocField "user_id"] ∧ err_type e = missing.
Proof.
  destruct (proj1 (missing_errors_are_absent_required_fields
                     (lib := sample_lib) Progress percent_only_input)
              (required "user_id" TStr) ltac:(field_declared) eq_refl eq_refl)
    as (errs & Hraise & e & He & Hloc & Hty).
  by exists errs, e.
Defined.

Lemma string_list_items_witness :
  ∃ errs,
    model_validate (lib := sample_lib) Video video_topics_input
      = Raise (ValidationError "Video" errs) ∧
    LineError [LocField "topics"; LocIndex 1] string_type (VInt 3) ∈ errs.
Proof.
  destruct (string_list_items_are_checked_one_by_one (lib := sample_lib)
              Video video_topics_input
              (defaulted "topics" (TList TStr) (VList []))
              [VStr "forms"; VInt 3]
              ltac:(field_declared) eq_refl eq_refl) as [_ Hbad].
  apply (Hbad 1%nat (VInt 3) eq_refl). intros [s Hs]. discriminate Hs.
Defined.

Lemma undeclared_fields_errors_witness :
  ∃ errs1 errs2,
    model_validate (lib := sample_lib) Progress bad_progress_input
      = Raise (ValidationError "Progress" errs1) ∧
    model_validate (lib := sample_lib) Progress bad_progress_input_foo
      = Raise (ValidationError "Progress" errs2) ∧
    error_sig <$> errs2 = error_sig <$> errs1.
Proof.
  destruct (model_validate (lib := sample_lib) Progress bad_progress_input)
    as [rec|e] eqn:Hv; [vm_compute in Hv; discriminate Hv|].
  pose proof Hv as [-> _]%model_validate_raise.
  destruct (undeclared_fields_leave_errors_alike (lib := sample_lib) Progress
              bad_progress_input bad_progress_input_foo _ _
              ltac:(intros k Hk; unfold bad_progress_input_foo; symmetry;
                    apply lookup_insert_ne; intros <-; revert Hk;
                    apply (bool_decide_unpack _); vm_compute; exact I)
              Hv) as (errs2 & Hraise & Hsig).
  eexists _, errs2. split; [reflexivity|]. split; [exact Hraise|exact Hsig].
Defined.

Lemma revalidating_witness :
  ∃ rec,
    model_validate (lib := sample_lib) Video video_body = Ok rec ∧
    model_validate (lib := sample_lib) Video rec = Ok rec.
Proof.
  destruct (model_validate (lib := sample_lib) Video video_body)
    as [rec|e] eqn:Hv; [|vm_compute in Hv; discriminate Hv].
  exists rec. split; [reflexivity|].
  apply (revalidating_a_record_changes_nothing (lib := sample_lib) Video
           video_body rec ltac:(distinct_names)
           (proj1 (stable_models (lib := sample_lib))) Hv).
Defined.

Lemma create_post_witness :
  ∃ payload,
    model_validate (lib := sample_lib) CreateForumPost post_body = Ok payload ∧
    model_validate (lib := sample_lib) ForumPost payload = Ok payload.
Proof.
  destruct (model_validate (lib := sample_lib) CreateForumPost post_body)
    as [payload|e] eqn:Hv; [|vm_compute in Hv; discriminate Hv].
  exists payload. split; [reflexivity|].
  exact (proj1 (create_post_passes_the_payload_on (lib := sample_lib)
                  sample_create_document post_body payload fresh_world Hv)).
Defined.

Lemma create_video_witness :
  model_validate (lib := sample_lib) CreateVideo video_body_expert
    = Ok expert_payload ∧
  ∃ errs,
    create_video (lib := sample_lib) sample_create_document expert_payload
        fresh_world
      = (Raise (ValidationError "Video" errs), fresh_world) ∧
    errs ≠ [].
Proof.
  assert (model_validate (lib := sample_lib) CreateVideo video_body_expert
            = Ok expert_payload) as Hv by (vm_compute; reflexivity).
  split; [exact Hv|].
  destruct (proj2 (create_video_rejects_what_the_request_model_lets_through
                     (lib := sample_lib) sample_create_document
                     video_body_expert expert_payload fresh_world Hv))
    as (errs & Hrun & Hne & _).
  - intros ((s & Hs & Hin) & _). vm_compute in Hs. injection Hs as <-.
    revert Hin. apply (bool_decide_unpack _). vm_compute. exact I.
  - by exists errs.
Defined.

Lemma world_after_first_ok : store_ok (w_store world_after_first).
Proof.
  exact (upsert_all_store_ok (lib := sample_lib) sample_clock [first_request]
           fresh_world (proj1 empty_store_ok)).
Qed.

Lemma world_after_first_docs :
  progress_docs (w_store world_after_first) !! 0%nat = Some first_record.
Proof. vm_compute. reflexivity. Qed.

Lemma upsert_that_raises_witness :
  ∃ e,
    (upsert_progress (lib := sample_lib) sample_clock over_request
       world_after_first).1 = Raise e ∧
    w_store (upsert_progress (lib := sample_lib) sample_clock over_request
               world_after_first).2 = w_store world_after_first.
Proof.
  destruct (upsert_progress (lib := sample_lib) sample_clock over_request
              world_after_first) as [[r|e] w'] eqn:Hrun;
    [vm_compute in Hrun; discriminate Hrun|].
  exists e. split; [reflexivity|].
  exact (proj1 (upsert_that_raises_writes_nothing (lib := sample_lib)
                  sample_clock over_request world_after_first e w' Hrun)).
Defined.


Lemma upsert_leaves_other_pairs_witness :
  progress_docs
    (w_store (upsert_progress (lib := sample_lib) sample_clock other_request
                world_after_first).2) !! 0%nat
    = Some first_record.
Proof.
  apply (proj1 (upsert_leaves_other_pairs_alone (lib := sample_lib)
                  sample_clock other_request world_after_first
                  world_after_first_ok)).
  - exact world_after_first_docs.
  - vm_compute. intros H. discriminate H.
Defined.

Lemma lookup_after_upsert_witness :
  ∃ r w' d,
    upsert_progress (lib := sample_lib) sample_clock first_request fresh_world
      = (Ok r, w') ∧
    find_one "progress" [("user_id", VStr "u1"); ("video_id", VStr "v1")] w'
      = (Ok (Some d), w') ∧
    d !! "percent" = Some (VFloat (FFin 50)).
Proof.
  destruct (upsert_progress (lib := sample_lib) sample_clock first_request
              fresh_world) as [[r|e] w'] eqn:Hrun;
    [|vm_compute in Hrun; discriminate Hrun].
  destruct (lookup_after_upsert_finds_the_request (lib := sample_lib)
              sample_clock first_request fresh_world r w'
              (proj1 empty_store_ok) Hrun)
    as (d & oid & Hfind & _ & _ & Hpercent & _).
  exists r, w', d. split; [reflexivity|]. split; [exact Hfind|exact Hpercent].
Defined.


Lemma upserts_keep_witness :
  ∃ d',
    progress_docs
      (w_store (upsert_all (lib := sample_lib) sample_clock
                  [repeat_request; other_request] world_after_first)) !! 0%nat
      = Some d' ∧
    d' !! "_id" = Some (VObjectId 0) ∧
    d' !! "created_at" = first_record !! "created_at".
Proof.
  destruct (upserts_keep_identifier_and_created_at (lib := sample_lib)
              sample_clock [repeat_request; other_request] world_after_first
              0%nat first_record world_after_first_ok world_after_first_docs)
    as (d' & Hd' & Hid & Hcreated & _).
  exists d'. split; [exact Hd'|]. split; [|exact Hcreated].
  rewrite Hid. vm_compute. reflexivity.
Defined.


Lemma diagnostics_store_witness :
  test_database fresh_world sample_probe sample_getenv !! "collections"
    = Some (VList [VStr "video"; VStr "progress"]) ∧
  test_database fresh_world sample_probe sample_getenv !! "database"
    = Some (VStr "✅ Connected & Working").
Proof.
  destruct (diagnostics_report_the_store fresh_world sample_probe
              sample_getenv) as (_ & _ & _ & _ & Hnames & _).
  destruct (Hnames ["video"; "progress"]) as (Hdb & _ & Hcolls & _).
  - intros H. discriminate H.
  - reflexivity.
  - split; [exact Hcolls|exact Hdb].
Defined.

Lemma returned_id_witness :
  ∃ r w' d,
    upsert_progress (lib := sample_lib) sample_clock first_request fresh_world
      = (Ok r, w') ∧
    d ∈ progress_docs (w_store w') ∧
    serialize_doc (lib := sample_lib) d !! "id" = r !! "id" ∧
    serialize_doc (lib := sample_lib) d !! "_id" = None.
Proof.
  destruct (upsert_progress (lib := sample_lib) sample_clock first_request
              fresh_world) as [[r|e] w'] eqn:Hrun;
    [|vm_compute in Hrun; discriminate Hrun].
  destruct (returned_id_is_the_serialized_id (lib := sample_lib)
              sample_clock first_request fresh_world r w'
              (proj1 empty_store_ok) Hrun)
    as (d & Hd & _ & Hid & Hnone & _).
  exists r, w', d. split; [reflexivity|]. by split; [|split].
Defined.
